(** * Hierarchical integer K-means (vl/hikmeans.c)

    A shallow embedding of the HIKM tree builder, the subset partitioner,
    the assignment walk and the tree life cycle, together with the
    properties of the specification that concern them.

    Conventions of the embedding.
    - C [int] and [vl_uint] values are integers of [Z].  The subset
      partitioner, whose index arithmetic can overflow, is embedded twice:
      [vl_hikm_copy_subset_int] computes every [int] expression in the
      range of [int] (an overflow is undefined behaviour), every [size_t]
      expression modulo [SIZE_MAX + 1], and checks every array access;
      [vl_hikm_copy_subset] computes in [Z].  On [N] points of dimension
      [M] with [N * M <= INT_MAX] the former is defined and returns what
      the latter returns ([copy_subset_int_pure]).  The tree builder is
      stated on the latter: its theorems are about data of that size.
    - Arrays are lists, read with [!!!]/[!!] and written with [<[i:=x]>].
    - A pointer is [Null], a pointer to a value, or [Indet] (the content of
      a freshly allocated cell that has not been written yet).
    - Code that may dereference outside an array, or read an indeterminate
      pointer, returns [option]: [None] is undefined behaviour.
    - What [vl_malloc] returns for the size 0, a null pointer or a block
      without cell, is left to the host ([VlHost]). *)

From stdpp Require Import base numbers option list sorting.

Local Open Scope Z_scope.

(** ** Machine-level vocabulary *)

Abbreviation vl_ikm_data := Z (only parsing).
Abbreviation vl_uint := Z (only parsing).

(** Modelled from the spec: the macro [VL_MIN] of the library's generic
    header is not part of the sources; the specification reads it as
    [min]. *)
Definition VL_MIN (x y : Z) : Z := if x <? y then x else y.

Inductive ptr (A : Type) : Type :=
| Indet : ptr A
| Null : ptr A
| Ptr (a : A) : ptr A.
Arguments Indet {A}.
Arguments Null {A}.
Arguments Ptr {A} a.

(** [for (i = i0 ; i < i0 + n ; i++) s = body i s] *)
Fixpoint for_loop {St : Type} (n : nat) (i : Z) (body : Z -> St -> St) (s : St) : St :=
  match n with
  | O => s
  | S n' => for_loop n' (i + 1) body (body i s)
  end.

(** [for (i = 0 ; i < N ; i++) s = body i s] *)
Definition for_range {St : Type} (N : Z) (body : Z -> St -> St) (s : St) : St :=
  for_loop (Z.to_nat N) 0 body s.

(** [memcpy (dst + doff, src + soff, n)] on cells. *)
Definition memcpy (dst : list vl_ikm_data) (doff : Z)
    (src : list vl_ikm_data) (soff n : Z) : list vl_ikm_data :=
  list_inserts (Z.to_nat doff) (take (Z.to_nat n) (drop (Z.to_nat soff) src)) dst.

(** ** The subset partitioner *)

(** The second loop of [vl_hikm_copy_subset], run on the buffer [new_data]. *)
Definition copy_matching (data : list vl_ikm_data) (ids : list vl_uint)
    (N M : Z) (id : vl_uint) (new_data : list vl_ikm_data) : list vl_ikm_data * Z :=
  for_range N
    (fun i '(new_data, count) =>
       if (ids !!! Z.to_nat i) =? id
       then (memcpy new_data (count * M) data (i * M) M, count + 1)
       else (new_data, count))
    (new_data, 0).

(** The function returns the buffer and the value left in [*N2].  The
    buffer obtained from [vl_malloc] has [M * count] cells; their initial
    content is immaterial ([copy_matching_any_buffer] below), zeros stand
    for it here. *)
Definition vl_hikm_copy_subset (data : list vl_ikm_data) (ids : list vl_uint)
    (N M : Z) (id : vl_uint) : list vl_ikm_data * Z :=
  let count :=
    for_range N (fun i count => if (ids !!! Z.to_nat i) =? id then count + 1 else count) 0 in
  let new_data := replicate (Z.to_nat (M * count)) 0 in
  copy_matching data ids N M id new_data.

(** ** The subset partitioner on the machine *)

(** An expression of type [int]: signed overflow is undefined. *)
Definition INT_MAX : Z := 2147483647.
Definition INT_MIN : Z := -2147483648.

Definition c_int (z : Z) : option Z :=
  if (INT_MIN <=? z) && (z <=? INT_MAX) then Some z else None.

(** Conversion to [size_t] and [size_t] arithmetic wrap around; [size_t]
    has 64 bits.  (The sizes computed below are at most the size in bytes
    of the data, so that they do not wrap with a narrower [size_t] either,
    as long as the data fit the address space.) *)
Definition SIZE_MAX : Z := 18446744073709551615.

Definition size_t (z : Z) : Z := z mod (SIZE_MAX + 1).

(** Modelled from the spec: [vl_ikm_data] is declared in ikmeans.h, which
    is not among the sources; the data are integers, of 32 bits in the
    library. *)
Definition sizeof_vl_ikm_data : Z := 4.

(** [memcpy (dst + doff, src + soff, size)], [size] in bytes: both ranges
    have to lie within their arrays. *)
Definition memcpy_int (dst : list vl_ikm_data) (doff : Z)
    (src : list vl_ikm_data) (soff size : Z) : option (list vl_ikm_data) :=
  let n := size / sizeof_vl_ikm_data in
  if (0 <=? doff) && (doff + n <=? Z.of_nat (length dst))
     && (0 <=? soff) && (soff + n <=? Z.of_nat (length src))
  then Some (memcpy dst doff src soff n)
  else None.

(** [vl_hikm_copy_subset] with the arithmetic of the C types and the
    bounds of the arrays: [ids[i]] is read within [ids], [count ++],
    [count * M] and [i * M] are computed in [int], the size of the buffer
    and of the copy in [size_t], and [memcpy] stays within [data] and
    within the buffer, which has as many cells as the allocated bytes
    hold.  The allocation is taken to succeed; zeros stand for the
    indeterminate content of the new buffer, and a buffer of size 0 is not
    distinguished from the null pointer, no cell of it being accessed. *)
Definition vl_hikm_copy_subset_int (data : list vl_ikm_data) (ids : list vl_uint)
    (N M : Z) (id : vl_uint) : option (list vl_ikm_data * Z) :=
  count ←
    for_range N
      (fun i count =>
         count ← count;
         l ← ids !! Z.to_nat i;
         if l =? id then c_int (count + 1) else Some count)
      (Some 0);
  let size := size_t (size_t (sizeof_vl_ikm_data * size_t M) * size_t count) in
  let new_data := replicate (Z.to_nat (size / sizeof_vl_ikm_data)) 0 in
  for_range N
    (fun i state =>
       '(new_data, count) ← state;
       l ← ids !! Z.to_nat i;
       if l =? id then
         doff ← c_int (count * M);
         soff ← c_int (i * M);
         new_data ← memcpy_int new_data doff data soff
                       (size_t (sizeof_vl_ikm_data * size_t M));
         count ← c_int (count + 1);
         Some (new_data, count)
       else Some (new_data, count))
    (Some (new_data, 0)).

(** Vocabulary of the statements: the [i]-th point of a flat array, and the
    indices below [n] that carry label [id], in ascending order. *)
Definition point (data : list vl_ikm_data) (M : Z) (i : nat) : list vl_ikm_data :=
  take (Z.to_nat M) (drop (i * Z.to_nat M)%nat data).

Definition selected (ids : list vl_uint) (id : vl_uint) (n : nat) : list nat :=
  filter (fun i => ids !!! i = id) (seq 0 n).

(** ** The flat clustering engine *)

(** Modelled from the spec: the flat integer K-means engine ([vl_ikm_*],
    file ikmeans.c) is not among the sources.  It is taken as a parameter:
    the operations that hikmeans.c calls, with the data they read and the
    objects they update.  [VlIKMFilt] is the type of the filters and
    [VlRand] the state of the library's random number generator, which
    seeding (and possibly training) consumes.
    [vl_ikm_push f data N] reads [N] points of the filter's dimension and
    writes [N] labels; it receives the filter through a non-const pointer,
    so it returns the filter as well. *)
Class IKM (VlIKMFilt VlRand : Type) := {
  vl_ikm_new : Z -> VlIKMFilt;
  vl_ikm_set_max_niters : VlIKMFilt -> Z -> VlIKMFilt;
  vl_ikm_set_verbosity : VlIKMFilt -> Z -> VlIKMFilt;
  vl_ikm_init_rand_data :
    VlIKMFilt -> list vl_ikm_data -> Z -> Z -> Z -> VlRand -> VlIKMFilt * VlRand;
  vl_ikm_train : VlIKMFilt -> list vl_ikm_data -> Z -> VlRand -> VlIKMFilt * VlRand;
  vl_ikm_push : VlIKMFilt -> list vl_ikm_data -> Z -> VlIKMFilt * list vl_uint;
  vl_ikm_get_K : VlIKMFilt -> Z
}.

(** Modelled from the spec: the contract of the engine (section 6 and the
    determinism property of section 8).  Seeding with [K] centers makes [K]
    the branching factor reported by the handle and training keeps it;
    assignment produces one label per point, the index of one of the
    handle's centers, and does not change the handle. *)
Class IKMContract {VlIKMFilt VlRand : Type} (E : IKM VlIKMFilt VlRand) := {
  ikm_init_K : forall f data M N K r,
    0 <= K -> vl_ikm_get_K (vl_ikm_init_rand_data f data M N K r).1 = K;
  ikm_train_K : forall f data N r,
    vl_ikm_get_K (vl_ikm_train f data N r).1 = vl_ikm_get_K f;
  ikm_push_readonly : forall f data N, (vl_ikm_push f data N).1 = f;
  ikm_push_length : forall f data N,
    length (vl_ikm_push f data N).2 = Z.to_nat N;
  ikm_push_range : forall f data N l,
    0 < vl_ikm_get_K f -> l ∈ (vl_ikm_push f data N).2 -> 0 <= l < vl_ikm_get_K f
}.

(** ** The host allocator *)

(** Modelled from the spec: [vl_malloc] belongs to the library's generic
    layer, which is not among the sources, and hands the request to the
    allocator of the host, [malloc] by default.  For the size 0 the C
    standard lets [malloc] return either a null pointer or a block that
    must not be accessed; which of the two is a parameter.  An allocation
    of a positive size is taken to succeed. *)
Class VlHost := {
  vl_malloc0_null : bool
}.

(** [vl_malloc] for an array of [K] pointers: the null pointer ([None]) or
    a block of [K] cells of indeterminate content.  (A negative [K] is not
    a number of cells; it is treated as 0, and the theorems about the
    children arrays take [K >= 0].) *)
Definition vl_malloc_cells {host : VlHost} {A : Type} (K : Z) : option (list (ptr A)) :=
  if vl_malloc0_null && (K <=? 0) then None
  else Some (replicate (Z.to_nat K) Indet).

(** ** Array cells holding pointers *)

Section slots.
Context {A B : Type}.

(** [visit (arr[k])]; undefined outside the array. *)
Section at_slot.
Context (visit : ptr A -> option B).
Fixpoint at_slot (arr : list (ptr A)) (k : Z) : option B :=
  match arr with
  | [] => None
  | p :: arr' => if k =? 0 then visit p else at_slot arr' (k - 1)
  end.
End at_slot.

(** [visit (&arr[k])]: the visit may update what the cell points to. *)
Section in_slot.
Context (visit : ptr A -> option (ptr A * B)).
Fixpoint in_slot (arr : list (ptr A)) (k : Z) : option (list (ptr A) * B) :=
  match arr with
  | [] => None
  | p :: arr' =>
      if k =? 0 then '(p', b) ← visit p; Some (p' :: arr', b)
      else '(arr'', b) ← in_slot arr' (k - 1); Some (p :: arr'', b)
  end.
End in_slot.

(** [for (k = 0 ; k < n ; ++k) visit (arr[k])], collecting what the
    visits emit; undefined when [n] exceeds the array. *)
Section each_slot.
Context (visit : ptr A -> option (list B)).
Fixpoint each_slot (arr : list (ptr A)) (n : nat) : option (list B) :=
  match n with
  | O => Some []
  | S n' =>
      match arr with
      | [] => None
      | p :: arr' =>
          t ← visit p; ts ← each_slot arr' n'; Some (t ++ ts)
      end
  end.
End each_slot.
End slots.

(** ** Trees *)

Section hikm.
Context {VlIKMFilt VlRand : Type} {E : IKM VlIKMFilt VlRand} {host : VlHost}.

(** [VlHIKMNode]: the filter and the array of children ([None] is the
    null pointer).  [xmeans] always creates the filter, so the filter is
    a value. *)
#[warnings="-register-all"] Inductive VlHIKMNode : Type := mkNode {
  node_filter : VlIKMFilt;
  node_children : option (list (ptr VlHIKMNode))
}.

Record VlHIKMTree : Type := mkTree {
  tree_M : Z;
  tree_K : Z;
  tree_max_niters : Z;
  tree_method : Z;
  tree_verb : Z;
  tree_depth : Z;
  tree_root : ptr VlHIKMNode
}.

Definition set_root (f : VlHIKMTree) (root : ptr VlHIKMNode) : VlHIKMTree :=
  mkTree (tree_M f) (tree_K f) (tree_max_niters f) (tree_method f)
         (tree_verb f) (tree_depth f) root.

(** Modelled from the spec: the accessors [vl_hikm_get_ndims] and
    [vl_hikm_get_depth] are defined in the header, which is not among the
    sources; they return the dimension [M] and the depth of the tree. *)
Definition vl_hikm_get_ndims (f : VlHIKMTree) : Z := tree_M f.
Definition vl_hikm_get_depth (f : VlHIKMTree) : Z := tree_depth f.

(** *** Construction *)

(** The engine calls of [xmeans] (lines 98 to 105): the new filter, the
    labels [ids] of the [N] points, and the generator state. *)
Definition train_filter (tree : VlHIKMTree) (data : list vl_ikm_data)
    (N K : Z) (r : VlRand) : VlIKMFilt * list vl_uint * VlRand :=
  let filter := vl_ikm_new (tree_method tree) in
  let filter := vl_ikm_set_max_niters filter (tree_max_niters tree) in
  let filter := vl_ikm_set_verbosity filter (tree_verb tree - 1) in
  let '(filter, r) := vl_ikm_init_rand_data filter data (tree_M tree) N K r in
  let '(filter, r) := vl_ikm_train filter data N r in
  let '(filter, ids) := vl_ikm_push filter data N in
  (filter, ids, r).

(** The loop of [xmeans] over the children, [recurse] being the call of
    [xmeans] on [(partition, partition_N, partition_K)] with
    [height - 1].  The progress message is not modelled. *)
Definition xmeans_children
    (recurse : list vl_ikm_data -> Z -> Z -> VlRand -> VlHIKMNode * VlRand)
    (tree : VlHIKMTree) (data : list vl_ikm_data) (ids : list vl_uint)
    (N K : Z) (children : list (ptr VlHIKMNode)) (r : VlRand)
    : list (ptr VlHIKMNode) * VlRand :=
  for_range K
    (fun k '(children, r) =>
       let '(partition, partition_N) :=
         vl_hikm_copy_subset data ids N (tree_M tree) k in
       let partition_K := VL_MIN K partition_N in
       let '(child, r) := recurse partition partition_N partition_K r in
       (<[Z.to_nat k := Ptr child]> children, r))
    (children, r).

(** [xmeans], with a bound on the depth of the recursion: [xmeans] below
    runs it with the bound [height - 1], which the recursion never
    exhausts, so that [xmeans] satisfies the recursion equation of the
    source ([xmeans_unfold]).  The children pointer is null for
    [height = 1] and what [vl_malloc] returns for [K] cells otherwise;
    when that is the null pointer, [K] is not positive and the loop over
    the children has no iteration.  The buffers [ids] and [partition]
    are released before returning and do not appear in the result. *)
Fixpoint xmeans_rec (bound : nat) (tree : VlHIKMTree) (data : list vl_ikm_data)
    (N K height : Z) (r : VlRand) : VlHIKMNode * VlRand :=
  let '(filter, ids, r) := train_filter tree data N K r in
  let children :=
    if height =? 1 then None else vl_malloc_cells K in
  match children, bound with
  | Some array, S bound' =>
      if 1 <? height then
        let '(array, r) :=
          xmeans_children
            (fun partition partition_N partition_K r =>
               xmeans_rec bound' tree partition partition_N partition_K (height - 1) r)
            tree data ids N K array r in
        (mkNode filter (Some array), r)
      else (mkNode filter children, r)
  | _, _ => (mkNode filter children, r)
  end.

Definition xmeans (tree : VlHIKMTree) (data : list vl_ikm_data)
    (N K height : Z) (r : VlRand) : VlHIKMNode * VlRand :=
  xmeans_rec (Z.to_nat (height - 1)) tree data N K height r.

Definition vl_hikm_train (f : VlHIKMTree) (data : list vl_ikm_data) (N : Z)
    (r : VlRand) : VlHIKMTree * VlRand :=
  let '(root, r) := xmeans f data N (VL_MIN (tree_K f) N) (tree_depth f) r in
  (set_root f (Ptr root), r).

(** *** Destruction *)

(** What is released, in the order of the calls. *)
Inductive free_event : Type :=
| EvFreeChildren (node : VlHIKMNode)   (* vl_free (node->children) *)
| EvIkmDelete (filter : VlIKMFilt)     (* vl_ikm_delete (node->filter) *)
| EvFreeNode (node : VlHIKMNode)       (* vl_free (node) *)
| EvFreeTree (f : VlHIKMTree).         (* vl_free (f) *)

Fixpoint xdelete (node : VlHIKMNode) : option (list free_event) :=
  match node with
  | mkNode filter children =>
      below ←
        match children with
        | None => Some []
        | Some array =>
            freed ←
              each_slot
                (fun child =>
                   match child with
                   | Indet => None
                   | Null => Some []
                   | Ptr c => xdelete c
                   end)
                array (Z.to_nat (vl_ikm_get_K filter));
            Some (freed ++ [EvFreeChildren node])
        end;
      Some (below ++ [EvIkmDelete filter; EvFreeNode node])
  end.

(** [xdelete] applied to a pointer: [if (node) { ... }]. *)
Definition xdelete_ptr (node : ptr VlHIKMNode) : option (list free_event) :=
  match node with
  | Indet => None
  | Null => Some []
  | Ptr n => xdelete n
  end.

(** *** Life cycle *)

Definition vl_hikm_new (method : Z) : VlHIKMTree :=
  mkTree 0 0 200 method 0 0 Null.

Definition vl_hikm_delete (f : ptr VlHIKMTree) : option (list free_event) :=
  match f with
  | Indet => None
  | Null => Some []
  | Ptr t => freed ← xdelete_ptr (tree_root t); Some (freed ++ [EvFreeTree t])
  end.

Definition vl_hikm_init (f : VlHIKMTree) (M K depth : Z)
    : option (list free_event * VlHIKMTree) :=
  freed ← xdelete_ptr (tree_root f);
  Some (freed,
        mkTree M K (tree_max_niters f) (tree_method f) (tree_verb f) depth Null).

(** *** Assignment *)

(** The body of the [while (node)] loop for datum [x] at level [d] and the
    iterations that follow it.  The filter may be updated by the engine,
    so the node is returned with the assignments. *)
Fixpoint push_node (x : list vl_ikm_data) (base : Z) (node : VlHIKMNode) (d : Z)
    (asgn : list vl_uint) : option (VlHIKMNode * list vl_uint) :=
  match node with
  | mkNode filter children =>
      let '(filter, out) := vl_ikm_push filter x 1 in
      best ← head out;
      let asgn := <[Z.to_nat (base + d) := best]> asgn in
      match children with
      | None => Some (mkNode filter None, asgn)
      | Some array =>
          '(array, asgn) ←
            in_slot
              (fun child =>
                 match child with
                 | Indet => None
                 | Null => Some (Null, asgn)
                 | Ptr c =>
                     '(c, asgn) ← push_node x base c (d + 1) asgn;
                     Some (Ptr c, asgn)
                 end)
              array best;
          Some (mkNode filter (Some array), asgn)
      end
  end.

(** The datum [data + i * M] handed to the engine is the [i]-th point:
    the engine reads one point of the filter's dimension, which is the
    dimension [M] of the tree that trained the filter. *)
Definition vl_hikm_push (f : VlHIKMTree) (asgn : list vl_uint)
    (data : list vl_ikm_data) (N : Z) : option (VlHIKMTree * list vl_uint) :=
  let M := vl_hikm_get_ndims f in
  let depth := vl_hikm_get_depth f in
  for_range N
    (fun i state =>
       '(f, asgn) ← state;
       match tree_root f with
       | Indet => None
       | Null => Some (f, asgn)
       | Ptr node =>
           '(node, asgn) ← push_node (point data M (Z.to_nat i)) (i * depth) node 0 asgn;
           Some (set_root f (Ptr node), asgn)
       end)
    (Some (f, asgn)).
End hikm.

Arguments VlHIKMNode : clear implicits.
Arguments VlHIKMTree : clear implicits.
Arguments free_event : clear implicits.

(** ** Vocabulary of the specification *)

Definition sumZ (l : list Z) : Z := foldr Z.add 0 l.

(** [asgn[i] = l0; asgn[i + 1] = l1; ...] for the labels [l0; l1; ...]. *)
Fixpoint write_labels (i : Z) (labels : list vl_uint) (asgn : list vl_uint)
    : list vl_uint :=
  match labels with
  | [] => asgn
  | l :: labels' => write_labels (i + 1) labels' (<[Z.to_nat i := l]> asgn)
  end.

Section hikm_spec.
Context {VlIKMFilt VlRand : Type} {E : IKM VlIKMFilt VlRand}.
Local Abbreviation VlHIKMNode := (VlHIKMNode VlIKMFilt).
Local Abbreviation VlHIKMTree := (VlHIKMTree VlIKMFilt).
Local Abbreviation free_event := (free_event VlIKMFilt).

(** A node with [h] levels below it: a leaf for [h = 0], otherwise an
    array of pointers to nodes with [h - 1] levels below them. *)
Fixpoint levels (h : nat) (node : VlHIKMNode) : Prop :=
  match h with
  | O => node_children node = None
  | S h' =>
      exists array, node_children node = Some array /\
        Forall (fun p => exists c, p = Ptr c /\ levels h' c) array
  end.

(** [root_to_leaf node path]: [path] lists the nodes met from [node] down
    to a leaf, a leaf being a node whose children pointer is null. *)
Inductive root_to_leaf : VlHIKMNode -> list VlHIKMNode -> Prop :=
| rtl_leaf node :
    node_children node = None -> root_to_leaf node [node]
| rtl_step node array child path :
    node_children node = Some array -> Ptr child ∈ array ->
    root_to_leaf child path -> root_to_leaf node (node :: path).

(** [subnode n' n]: [n'] is [n] or one of its descendants. *)
Inductive subnode (n' : VlHIKMNode) : VlHIKMNode -> Prop :=
| subnode_here : subnode n' n'
| subnode_below n array child :
    node_children n = Some array -> Ptr child ∈ array ->
    subnode n' child -> subnode n' n.

(** The children array of every inner node has as many cells as its
    filter has centers, and every cell points to a node (or is null). *)
#[warnings="-register-all"] Inductive node_wf : VlHIKMNode -> Prop :=
| wf_leaf filter : node_wf (mkNode filter None)
| wf_inner filter array :
    Z.of_nat (length array) = vl_ikm_get_K filter ->
    Forall (fun p => p = Null \/ exists c, p = Ptr c /\ node_wf c) array ->
    node_wf (mkNode filter (Some array)).

Definition tree_wf (f : VlHIKMTree) : Prop :=
  match tree_root f with
  | Indet => False
  | Null => True
  | Ptr n => node_wf n
  end.

(** The releases of a subtree, every cell of every children array being
    visited once: children first, then the children array, the filter
    and the node. *)
Fixpoint free_trace (node : VlHIKMNode) : list free_event :=
  match node with
  | mkNode filter children =>
      match children with
      | None => []
      | Some array =>
          concat (map (fun p => match p with Ptr c => free_trace c | _ => [] end) array)
          ++ [EvFreeChildren node]
      end ++ [EvIkmDelete filter; EvFreeNode node]
  end.

Definition free_trace_ptr (p : ptr VlHIKMNode) : list free_event :=
  match p with Ptr c => free_trace c | _ => [] end.

(** The order of the specification's "Destroy" paragraph: children, then
    the clustering model, then the children array, then the node. *)
Fixpoint destroy_order (node : VlHIKMNode) : list free_event :=
  match node with
  | mkNode filter children =>
      match children with
      | None => [EvIkmDelete filter]
      | Some array =>
          concat (map (fun p => match p with Ptr c => destroy_order c | _ => [] end) array)
          ++ [EvIkmDelete filter; EvFreeChildren node]
      end ++ [EvFreeNode node]
  end.

(** The walk of the specification's Assigner for one point: ask the
    node's model for the nearest center, record the label, descend into
    the child with that index, stop at a node without children. *)
Fixpoint hikm_path (node : VlHIKMNode) (x : list vl_ikm_data) : option (list vl_uint) :=
  match node with
  | mkNode filter children =>
      best ← head (vl_ikm_push filter x 1).2;
      match children with
      | None => Some [best]
      | Some array =>
          rest ←
            at_slot
              (fun child =>
                 match child with
                 | Indet => None
                 | Null => Some []
                 | Ptr c => hikm_path c x
                 end)
              array best;
          Some (best :: rest)
      end
  end.


(** The loop of [xmeans] over the children as a function of the list of
    labels: the cells are produced in the order of the labels instead of
    being written into the array one by one. *)
Fixpoint build_children
    (build : list vl_ikm_data -> Z -> Z -> VlRand -> VlHIKMNode * VlRand)
    (M : Z) (data : list vl_ikm_data) (ids : list vl_uint) (N K : Z)
    (labels : list Z) (r : VlRand) : list (ptr VlHIKMNode) * VlRand :=
  match labels with
  | [] => ([], r)
  | k :: labels' =>
      let '(subset, N_k) := vl_hikm_copy_subset data ids N M k in
      let '(child, r) := build subset N_k (Z.min K N_k) r in
      let '(rest, r) := build_children build M data ids N K labels' r in
      (Ptr child :: rest, r)
  end.

(** The children in the words of the specification: for each label [k]
    in turn, the subset is made of the points whose label is [k], in
    their order, [N_k] is their number, the child is built on them for
    the branching factor [min K N_k], and attached as child [k]. *)
Fixpoint attach_children
    (build : list vl_ikm_data -> Z -> Z -> VlRand -> VlHIKMNode * VlRand)
    (M : Z) (data : list vl_ikm_data) (ids : list vl_uint) (N K : Z)
    (labels : list Z) (r : VlRand) : list (ptr VlHIKMNode) * VlRand :=
  match labels with
  | [] => ([], r)
  | k :: labels' =>
      let matching := selected ids k (Z.to_nat N) in
      let subset := concat (point data M <$> matching) in
      let N_k := Z.of_nat (length matching) in
      let '(child, r) := build subset N_k (Z.min K N_k) r in
      let '(rest, r) := attach_children build M data ids N K labels' r in
      (Ptr child :: rest, r)
  end.

(** A node with at most [h] levels below it. *)
Fixpoint within (h : nat) (node : VlHIKMNode) : Prop :=
  match node_children node, h with
  | None, _ => True
  | Some array, O => False
  | Some array, S h' => Forall (fun p => exists c, p = Ptr c /\ within h' c) array
  end.

(** [root_to_end node path]: [path] lists the nodes met from [node] down
    to a node below which there is no node, because its children pointer
    is null or because no cell of its children array points to a node. *)
Inductive root_to_end : VlHIKMNode -> list VlHIKMNode -> Prop :=
| rte_end node :
    (forall array child, node_children node = Some array -> Ptr child ∉ array) ->
    root_to_end node [node]
| rte_step node array child path :
    node_children node = Some array -> Ptr child ∈ array ->
    root_to_end child path -> root_to_end node (node :: path).
End hikm_spec.

(** ** The two hosts *)

Module Hosts.
(** [vl_malloc (0)] returns a block without cell, as the allocator of
    the GNU C library does. *)
#[export] Instance block_host : VlHost := {| vl_malloc0_null := false |}.

(** [vl_malloc (0)] returns the null pointer. *)
Definition null_host : VlHost := {| vl_malloc0_null := true |}.
End Hosts.

(** ** A concrete engine *)

(** Modelled from the spec: an integer K-means engine with the interface
    above, used to run the definitions on examples.  Seeding takes the
    first [K] points as centers (one outcome of the random choice);
    training performs Lloyd iterations, a center becoming the
    component-wise mean (integer division) of the points nearest to it
    and staying where it is when no point is; assignment returns the index
    of the nearest center in squared Euclidean distance, the lowest index
    winning ties, and [(vl_uint) -1] when the filter has no center. *)
Module Lloyd.
Record filt : Type := mkFilt {
  f_method : Z;
  f_max_niters : Z;
  f_verb : Z;
  f_M : Z;
  f_centers : list (list Z)
}.

Definition dist2 (x c : list Z) : Z :=
  sumZ (zip_with (fun a b => (a - b) * (a - b)) x c).

Fixpoint nearest_from (x : list Z) (cs : list (list Z)) (k best best_dist : Z) : Z :=
  match cs with
  | [] => best
  | c :: cs' =>
      let d := dist2 x c in
      if d <? best_dist then nearest_from x cs' (k + 1) k d
      else nearest_from x cs' (k + 1) best best_dist
  end.

Definition nearest (cs : list (list Z)) (x : list Z) : Z :=
  match cs with
  | [] => 4294967295
  | c :: cs' => nearest_from x cs' 1 0 (dist2 x c)
  end.

Definition points (data : list Z) (M N : Z) : list (list Z) :=
  point data M <$> seq 0 (Z.to_nat N).

Definition mean (members : list (list Z)) (old : list Z) : list Z :=
  match members with
  | [] => old
  | _ =>
      (fun s => Z.quot s (Z.of_nat (length members)))
        <$> foldr (zip_with Z.add) (replicate (length old) 0) members
  end.

Definition step (pts : list (list Z)) (cs : list (list Z)) : list (list Z) :=
  imap (fun k c =>
          mean (filter (fun p => nearest cs p = Z.of_nat k) pts) c) cs.

Definition new (method : Z) : filt := mkFilt method 200 0 0 [].

Definition set_max_niters (f : filt) (n : Z) : filt :=
  mkFilt (f_method f) n (f_verb f) (f_M f) (f_centers f).

Definition set_verbosity (f : filt) (v : Z) : filt :=
  mkFilt (f_method f) (f_max_niters f) v (f_M f) (f_centers f).

Definition init_rand_data (f : filt) (data : list Z) (M N K : Z) (r : unit)
    : filt * unit :=
  (mkFilt (f_method f) (f_max_niters f) (f_verb f) M (points data M K), r).

Definition train (f : filt) (data : list Z) (N : Z) (r : unit) : filt * unit :=
  (mkFilt (f_method f) (f_max_niters f) (f_verb f) (f_M f)
     (Nat.iter (Z.to_nat (f_max_niters f)) (step (points data (f_M f) N))
        (f_centers f)), r).

Definition push (f : filt) (data : list Z) (N : Z) : filt * list Z :=
  (f, nearest (f_centers f) <$> points data (f_M f) N).

Definition get_K (f : filt) : Z := Z.of_nat (length (f_centers f)).

#[export] Instance engine : IKM filt unit := {|
  vl_ikm_new := new;
  vl_ikm_set_max_niters := set_max_niters;
  vl_ikm_set_verbosity := set_verbosity;
  vl_ikm_init_rand_data := init_rand_data;
  vl_ikm_train := train;
  vl_ikm_push := push;
  vl_ikm_get_K := get_K
|}.
End Lloyd.

(** ** Data of the examples *)

Module Examples.
Import Hosts Lloyd.

(** Nine points of dimension 1, three clusters per node, three levels,
    at most 8 iterations per training.  At the root, training ends with
    the centers 1, 7 and 14, which further iterations would not move, and
    no point of the data is nearest to 7. *)
Definition data9 : list vl_ikm_data := [1; 2; 23; 0; 12; 13; 13; 13; 13].
Definition config9 : VlHIKMTree filt := mkTree 1 3 8 0 0 3 Null.
Definition tree9 : VlHIKMTree filt := (vl_hikm_train config9 data9 9 tt).1.

(** The same training on a host whose [vl_malloc (0)] is null. *)
Definition tree9_null : VlHIKMTree filt :=
  (vl_hikm_train (host := null_host) config9 data9 9 tt).1.

(** The example of the specification: four points of dimension 2, two
    clusters per node, two levels. *)
Definition data4 : list vl_ikm_data := [0; 0; 0; 1; 9; 9; 9; 10].
Definition config4 : VlHIKMTree filt := mkTree 2 2 8 0 0 2 Null.
Definition tree4 : VlHIKMTree filt := (vl_hikm_train config4 data4 4 tt).1.

(** Two points, one cluster per node, two levels. *)
Definition config2 : VlHIKMTree filt := mkTree 1 1 8 0 0 2 Null.
Definition tree2 : VlHIKMTree filt := (vl_hikm_train config2 [5; 6] 2 tt).1.
End Examples.

(** ** Counting nodes and releases *)

Fixpoint count_if {A : Type} (p : A -> bool) (l : list A) : nat :=
  match l with
  | [] => O
  | x :: l' => ((if p x then 1 else 0) + count_if p l')%nat
  end.

Section hikm_counts.
Context {VlIKMFilt VlRand : Type} {E : IKM VlIKMFilt VlRand}.
Local Abbreviation VlHIKMNode := (VlHIKMNode VlIKMFilt).
Local Abbreviation VlHIKMTree := (VlHIKMTree VlIKMFilt).
Local Abbreviation free_event := (free_event VlIKMFilt).

(** The number of nodes of a subtree, and of those that have a children
    array. *)
Fixpoint node_count (node : VlHIKMNode) : nat :=
  match node with
  | mkNode _ children =>
      S match children with
        | None => O
        | Some array =>
            sum_list (map (fun p => match p with Ptr c => node_count c | _ => O end) array)
        end
  end.

Fixpoint inner_count (node : VlHIKMNode) : nat :=
  match node with
  | mkNode _ children =>
      match children with
      | None => O
      | Some array =>
          S (sum_list (map (fun p => match p with Ptr c => inner_count c | _ => O end) array))
      end
  end.

Definition is_free_children (e : free_event) : bool :=
  match e with EvFreeChildren _ => true | _ => false end.
Definition is_ikm_delete (e : free_event) : bool :=
  match e with EvIkmDelete _ => true | _ => false end.
Definition is_free_node (e : free_event) : bool :=
  match e with EvFreeNode _ => true | _ => false end.
Definition is_free_tree (e : free_event) : bool :=
  match e with EvFreeTree _ => true | _ => false end.

End hikm_counts.

Module ExtraExamples.
Import Hosts Lloyd.

(** A tree trained with depth 0: the children array of the root is
    allocated and never written. *)
Definition config0 : VlHIKMTree filt := mkTree 1 2 8 0 0 0 Null.
Definition tree0 : VlHIKMTree filt := (vl_hikm_train config0 [5; 6] 2 tt).1.

End ExtraExamples.

(** ** Loops *)

Lemma VL_MIN_min x y : VL_MIN x y = Z.min x y.
Proof. unfold VL_MIN. destruct (Z.ltb_spec x y); lia. Qed.

Lemma for_loop_snoc {St} (n : nat) (i : Z) (body : Z -> St -> St) (s : St) :
  for_loop (S n) i body s = body (i + Z.of_nat n) (for_loop n i body s).
Proof.
  revert i s. induction n as [|n IH]; intros i s.
  - simpl. by rewrite Z.add_0_r.
  - change (for_loop (S (S n)) i body s) with (for_loop (S n) (i + 1) body (body i s)).
    rewrite IH.
    change (for_loop (S n) i body s) with (for_loop n (i + 1) body (body i s)).
    f_equal. lia.
Qed.

Lemma for_loop_invariant {St} (I : nat -> St -> Prop) (n : nat) (body : Z -> St -> St) (s : St) :
  I O s ->
  (forall k s', (k < n)%nat -> I k s' -> I (S k) (body (Z.of_nat k) s')) ->
  I n (for_loop n 0 body s).
Proof.
  intros H0 Hstep. induction n as [|n IH]; [done|].
  rewrite for_loop_snoc, Z.add_0_l. apply Hstep; [lia|]. apply IH.
  intros k s' Hk. apply Hstep. lia.
Qed.

(** ** Facts about [selected] *)

Lemma selected_S ids id n :
  selected ids id (S n) =
  selected ids id n ++ (if decide (ids !!! n = id) then [n] else []).
Proof.
  unfold selected. rewrite seq_S, filter_app. simpl. f_equal.
Qed.

Lemma selected_elem ids id n i :
  i ∈ selected ids id n <-> (i < n)%nat /\ ids !!! i = id.
Proof.
  unfold selected. rewrite list_elem_of_filter, elem_of_seq. intuition lia.
Qed.

Lemma selected_length_mono ids id n m :
  (n <= m)%nat -> (length (selected ids id n) <= length (selected ids id m))%nat.
Proof.
  induction 1 as [|m _ IH]; [done|].
  rewrite selected_S, length_app. lia.
Qed.

Lemma selected_length_le ids id n : (length (selected ids id n) <= n)%nat.
Proof.
  induction n as [|n IH]; [done|].
  rewrite selected_S, length_app. destruct (decide _); simpl; lia.
Qed.

Lemma selected_sorted ids id n : StronglySorted lt (selected ids id n).
Proof.
  induction n as [|n IH]; [constructor|].
  rewrite selected_S. destruct (decide _); [|by rewrite app_nil_r].
  apply StronglySorted_app_2; [|done|repeat constructor].
  intros i j [Hi _]%selected_elem ->%list_elem_of_singleton. done.
Qed.

(** ** The counting loop *)

Lemma count_loop ids id n :
  for_loop n 0 (fun i count => if (ids !!! Z.to_nat i) =? id then count + 1 else count) 0
  = Z.of_nat (length (selected ids id n)).
Proof.
  apply (for_loop_invariant (fun k c => c = Z.of_nat (length (selected ids id k)))); [done|].
  intros k c _ ->. rewrite selected_S, length_app, Nat2Z.id.
  destruct (Z.eqb_spec (ids !!! k) id), (decide _); simpl; try done; lia.
Qed.

(** ** The copying loop *)

Lemma point_length data M n i :
  (i < n)%nat -> length data = (n * Z.to_nat M)%nat ->
  length (point data M i) = Z.to_nat M.
Proof.
  intros Hi Hlen. unfold point. rewrite length_take, length_drop, Hlen. nia.
Qed.

Lemma points_length data M n (sel : list nat) :
  Forall (fun i => (i < n)%nat) sel -> length data = (n * Z.to_nat M)%nat ->
  length (concat (point data M <$> sel)) = (length sel * Z.to_nat M)%nat.
Proof.
  intros Hsel Hlen. induction Hsel as [|i sel Hi _ IH]; [done|].
  csimpl. rewrite length_app, IH, (point_length data M n i) by done. lia.
Qed.

Lemma write_chunk {A} (pre chunk rest : list A) :
  (length chunk <= length rest)%nat ->
  list_inserts (length pre) chunk (pre ++ rest) = pre ++ chunk ++ drop (length chunk) rest.
Proof.
  intros Hlen. rewrite <- (Nat.add_0_r (length pre)), list_inserts_app_r. f_equal.
  rewrite <- (take_drop (length chunk) rest) at 1.
  apply list_inserts_0_r. rewrite length_take. lia.
Qed.

Lemma selected_below ids id n : Forall (fun i => (i < n)%nat) (selected ids id n).
Proof. apply Forall_forall. by intros i [? _]%selected_elem. Qed.

(** Whatever the buffer holds initially, the loop overwrites all of it with
    the selected points, in the order of their indices. *)
Lemma copy_matching_any_buffer data ids N M id buf :
  0 <= N -> 0 <= M ->
  length data = (Z.to_nat N * Z.to_nat M)%nat ->
  length buf = (length (selected ids id (Z.to_nat N)) * Z.to_nat M)%nat ->
  copy_matching data ids N M id buf =
  (concat (point data M <$> selected ids id (Z.to_nat N)),
   Z.of_nat (length (selected ids id (Z.to_nat N)))).
Proof.
  intros HN HM Hdata Hbuf. unfold copy_matching, for_range.
  set (n := Z.to_nat N) in *. set (m := Z.to_nat M) in *.
  assert (Hinv : forall k, (k <= n)%nat ->
    for_loop k 0 (fun i '(new_data, count) =>
       if (ids !!! Z.to_nat i) =? id
       then (memcpy new_data (count * M) data (i * M) M, count + 1)
       else (new_data, count)) (buf, 0)
    = (concat (point data M <$> selected ids id k)
         ++ drop (length (selected ids id k) * m) buf,
       Z.of_nat (length (selected ids id k)))).
  { induction k as [|k IH]; intros Hk; [done|].
    rewrite for_loop_snoc, Z.add_0_l, IH by lia. rewrite Nat2Z.id, selected_S.
    destruct (Z.eqb_spec (ids !!! k) id) as [Heq|Hne], (decide _); try done.
    - rewrite fmap_app, concat_app, length_app. simpl. rewrite app_nil_r.
      f_equal; [|lia].
      set (sel := selected ids id k) in *.
      assert (Hpre : length (concat (point data M <$> sel)) = (length sel * m)%nat).
      { apply (points_length data M n); [|done].
        eapply Forall_impl; [apply selected_below|]. simpl. lia. }
      assert (Hfit : (length sel + 1 <= length (selected ids id n))%nat).
      { pose proof (selected_length_mono ids id (S k) n Hk) as Hle.
        rewrite selected_S, length_app in Hle.
        destruct (decide (ids !!! k = id)); [simpl in Hle; unfold sel; lia|done]. }
      unfold memcpy.
      replace (Z.to_nat (Z.of_nat (length sel) * M))
        with (length (concat (point data M <$> sel)))
        by (by rewrite Hpre, Z2Nat.inj_mul, Nat2Z.id by lia).
      replace (Z.to_nat (Z.of_nat k * M)) with (k * Z.to_nat M)%nat
        by (by rewrite Z2Nat.inj_mul, Nat2Z.id by lia).
      change (take (Z.to_nat M) (drop (k * Z.to_nat M) data)) with (point data M k).
      assert (Hpt : length (point data M k) = m) by (apply (point_length data M n); [lia|done]).
      rewrite write_chunk by (rewrite Hpt, length_drop, Hbuf; nia).
      rewrite Hpt, drop_drop, <- app_assoc. do 3 f_equal. lia.
    - by rewrite app_nil_r. }
  rewrite Hinv by done. f_equal.
  rewrite drop_ge by lia. apply app_nil_r.
Qed.

(** ** The subset partitioner: contract *)

Lemma copy_subset_selected data ids N M id :
  0 <= N -> 0 <= M ->
  length data = Z.to_nat (N * M) ->
  vl_hikm_copy_subset data ids N M id =
  (concat (point data M <$> selected ids id (Z.to_nat N)),
   Z.of_nat (length (selected ids id (Z.to_nat N)))).
Proof.
  intros HN HM Hdata. unfold vl_hikm_copy_subset, for_range.
  rewrite count_loop. apply copy_matching_any_buffer; try done.
  - by rewrite Hdata, Z2Nat.inj_mul.
  - rewrite length_replicate, Z2Nat.inj_mul, Nat2Z.id by lia. lia.
Qed.

Lemma copy_subset_count data ids N M id :
  (vl_hikm_copy_subset data ids N M id).2 = Z.of_nat (length (selected ids id (Z.to_nat N))).
Proof.
  unfold vl_hikm_copy_subset, copy_matching, for_range.
  set (body := fun (i : Z) '(new_data, count) => _).
  generalize (replicate
    (Z.to_nat (M * for_loop (Z.to_nat N) 0
       (fun i count => if (ids !!! Z.to_nat i) =? id then count + 1 else count) 0)) 0).
  intros buf.
  apply (for_loop_invariant
           (fun k (s : list vl_ikm_data * Z) => s.2 = Z.of_nat (length (selected ids id k))));
    [done|].
  intros k [buf' c] _ Hc. simpl in Hc. subst c. unfold body.
  rewrite Nat2Z.id, selected_S, length_app.
  destruct (Z.eqb_spec (ids !!! k) id), (decide _); simpl; try done; lia.
Qed.

Lemma selected_lookup ids id n i :
  length ids = n -> i ∈ selected ids id n <-> ids !! i = Some id.
Proof.
  intros Hlen. rewrite selected_elem. split.
  - intros [Hi <-]. apply list_lookup_lookup_total_lt. lia.
  - intros Hi. split; [apply lookup_lt_Some in Hi; lia|].
    by apply list_lookup_total_correct.
Qed.

(** ** The subset partitioner on the machine *)

Lemma c_int_in z : INT_MIN <= z <= INT_MAX -> c_int z = Some z.
Proof.
  intros [Hlo Hhi]. unfold c_int.
  by rewrite (proj2 (Z.leb_le _ _) Hlo), (proj2 (Z.leb_le _ _) Hhi).
Qed.

Lemma size_t_in z : 0 <= z <= SIZE_MAX -> size_t z = z.
Proof. intros Hz. unfold size_t. apply Z.mod_small. lia. Qed.

Lemma selected_next ids id k n :
  (k < n)%nat -> ids !!! k = id ->
  (length (selected ids id k) + 1 <= length (selected ids id n))%nat.
Proof.
  intros Hk Hid. pose proof (selected_length_mono ids id (S k) n Hk) as Hle.
  rewrite selected_S, length_app, decide_True in Hle by done. simpl in Hle. lia.
Qed.

(** Under the size conditions the counting loop stays within [int] and
    within [ids]. *)
Lemma count_loop_int ids id N :
  0 <= N <= INT_MAX -> (Z.to_nat N <= length ids)%nat ->
  for_range N
    (fun i count =>
       count ← count;
       l ← ids !! Z.to_nat i;
       if l =? id then c_int (count + 1) else Some count)
    (Some 0)
  = Some (Z.of_nat (length (selected ids id (Z.to_nat N)))).
Proof.
  intros HN Hids. unfold for_range.
  apply (for_loop_invariant
           (fun k s => s = Some (Z.of_nat (length (selected ids id k))))); [done|].
  intros k s Hk ->. simpl. rewrite Nat2Z.id.
  rewrite (list_lookup_lookup_total_lt ids k) by lia. simpl.
  rewrite selected_S, length_app.
  pose proof (selected_length_le ids id k) as Hle.
  destruct (Z.eqb_spec (ids !!! k) id), (decide _); try done.
  - rewrite c_int_in by (unfold INT_MIN, INT_MAX in *; lia). simpl. f_equal. lia.
  - simpl. by rewrite Nat.add_0_r.
Qed.

(** Under the size conditions every [int] expression of the copying loop
    is in range and every copy lies within the data and within the buffer:
    the loop computes what [copy_matching] computes. *)
Lemma copy_loop_int data ids N M id buf :
  0 <= N <= INT_MAX -> 0 <= M <= INT_MAX -> N * M <= INT_MAX ->
  (Z.to_nat N <= length ids)%nat -> (Z.to_nat (N * M) <= length data)%nat ->
  length buf = Z.to_nat (M * Z.of_nat (length (selected ids id (Z.to_nat N)))) ->
  for_range N
    (fun i state =>
       '(new_data, count) ← state;
       l ← ids !! Z.to_nat i;
       if l =? id then
         doff ← c_int (count * M);
         soff ← c_int (i * M);
         new_data ← memcpy_int new_data doff data soff
                       (size_t (sizeof_vl_ikm_data * size_t M));
         count ← c_int (count + 1);
         Some (new_data, count)
       else Some (new_data, count))
    (Some (buf, 0))
  = Some (copy_matching data ids N M id buf).
Proof.
  intros HN HM HNM Hids Hdata Hbuf. unfold copy_matching, for_range.
  set (pure := fun (i : Z) '(new_data, count) => _).
  apply (for_loop_invariant
    (fun k s =>
       s = Some (for_loop k 0 pure (buf, 0))
       /\ (for_loop k 0 pure (buf, 0)).2 = Z.of_nat (length (selected ids id k))
       /\ length (for_loop k 0 pure (buf, 0)).1 = length buf)); [done|].
  intros k s Hk (-> & Hcount & Hlen).
  rewrite for_loop_snoc, Z.add_0_l.
  destruct (for_loop k 0 pure (buf, 0)) as [new_data count]. simpl in Hcount, Hlen.
  subst count. cbn [mbind option_bind]. rewrite Nat2Z.id.
  rewrite (list_lookup_lookup_total_lt ids k) by lia. cbn [mbind option_bind].
  unfold pure. rewrite Nat2Z.id, selected_S, length_app.
  pose proof (selected_length_le ids id k) as Hle.
  destruct (Z.eqb_spec (ids !!! k) id) as [Hid|Hid], (decide _); try done.
  - pose proof (selected_next ids id k (Z.to_nat N) Hk Hid) as Hnext.
    set (c := length (selected ids id k)) in *.
    set (total := length (selected ids id (Z.to_nat N))) in *.
    unfold INT_MIN, INT_MAX, SIZE_MAX in *.
    rewrite (c_int_in (Z.of_nat c * M)) by (unfold INT_MIN, INT_MAX; nia).
    rewrite (c_int_in (Z.of_nat k * M)) by (unfold INT_MIN, INT_MAX; nia).
    cbn [mbind option_bind].
    rewrite (size_t_in M), size_t_in by (unfold SIZE_MAX, sizeof_vl_ikm_data; lia).
    unfold memcpy_int.
    replace (sizeof_vl_ikm_data * M / sizeof_vl_ikm_data) with M
      by (unfold sizeof_vl_ikm_data; rewrite Z.mul_comm, Z.div_mul; lia).
    rewrite (proj2 (Z.leb_le 0 _)) by nia.
    rewrite (proj2 (Z.leb_le (_ + M) (Z.of_nat (length new_data)))) by (rewrite Hlen, Hbuf; nia).
    rewrite (proj2 (Z.leb_le 0 _)) by nia.
    rewrite (proj2 (Z.leb_le (_ + M) (Z.of_nat (length data)))) by nia.
    cbn [andb mbind option_bind].
    rewrite c_int_in by (unfold INT_MIN, INT_MAX; lia). cbn [mbind option_bind].
    split_and!; [done|simpl; lia|]. simpl. unfold memcpy. by rewrite length_inserts.
  - simpl. split_and!; [done|lia|done].
Qed.

(** The function with the machine arithmetic is defined on [N] points of
    dimension [M] and [N] labels when [N * M] fits [int], and returns what
    the function computed in [Z] returns. *)
Lemma copy_subset_int_pure data ids N M id :
  0 <= N <= INT_MAX -> 0 <= M <= INT_MAX -> N * M <= INT_MAX ->
  (Z.to_nat N <= length ids)%nat -> (Z.to_nat (N * M) <= length data)%nat ->
  vl_hikm_copy_subset_int data ids N M id = Some (vl_hikm_copy_subset data ids N M id).
Proof.
  intros HN HM HNM Hids Hdata. unfold vl_hikm_copy_subset_int, vl_hikm_copy_subset.
  rewrite count_loop_int by done. cbn [mbind option_bind].
  unfold for_range at 2. rewrite count_loop.
  pose proof (selected_length_le ids id (Z.to_nat N)) as Hle.
  set (total := Z.of_nat (length (selected ids id (Z.to_nat N)))) in *.
  assert (Hsize : size_t (size_t (sizeof_vl_ikm_data * size_t M) * size_t total)
                  / sizeof_vl_ikm_data = M * total).
  { unfold INT_MAX in *.
    rewrite (size_t_in M), (size_t_in total), (size_t_in (_ * M)), size_t_in
      by (unfold SIZE_MAX, sizeof_vl_ikm_data; nia).
    unfold sizeof_vl_ikm_data.
    replace (4 * M * total) with (M * total * 4) by lia. apply Z.div_mul. lia. }
  rewrite Hsize. apply copy_loop_int; try done.
  by rewrite length_replicate.
Qed.

(** C5, amended.  For [N] points of dimension [M] and [N] labels, the
    number [N * M] of cells of the data being at most [INT_MAX],
    [vl_hikm_copy_subset], run with the arithmetic of [int] and [size_t]
    and with every array access checked, returns a buffer that holds the
    points whose label is [id], and only them, in the order in which they
    occur in the data, and leaves their number in [*N2]; when no label is
    [id] the buffer is empty and the number is 0.  (The buffer is a new
    value and the arguments are not changed: the function only reads
    them.) *)
Theorem vl_hikm_copy_subset_contract data ids N M id :
  0 <= N <= INT_MAX -> 0 <= M <= INT_MAX -> N * M <= INT_MAX ->
  length ids = Z.to_nat N ->
  length data = Z.to_nat (N * M) ->
  let sel := selected ids id (Z.to_nat N) in
  vl_hikm_copy_subset_int data ids N M id
    = Some (concat (point data M <$> sel), Z.of_nat (length sel))
  /\ (forall i, i ∈ sel <-> ids !! i = Some id)
  /\ StronglySorted lt sel
  /\ ((forall i, ids !! i <> Some id) ->
      vl_hikm_copy_subset_int data ids N M id = Some ([], 0)).
Proof.
  intros HN HM HNM Hids Hdata sel.
  assert (Hsel : forall i, i ∈ sel <-> ids !! i = Some id)
    by (intros i; by apply selected_lookup).
  assert (Hrun : vl_hikm_copy_subset_int data ids N M id
                 = Some (concat (point data M <$> sel), Z.of_nat (length sel))).
  { rewrite copy_subset_int_pure by (done || lia).
    f_equal. apply copy_subset_selected; lia. }
  split_and!; [done|done|apply selected_sorted|].
  intros Hnone. rewrite Hrun.
  destruct sel as [|i sel']; [done|].
  destruct (Hnone i). apply Hsel. left.
Qed.

(** ** Partition completeness *)






(** ** Array cells *)

Section slot_facts.
Context {A B : Type}.

Lemma at_slot_lookup (visit : ptr A -> option B) (arr : list (ptr A)) (k : Z) :
  at_slot visit arr k =
  if decide (0 <= k) then arr !! Z.to_nat k ≫= visit else None.
Proof.
  revert k. induction arr as [|p arr IH]; intros k; simpl.
  - by destruct (decide _).
  - destruct (Z.eqb_spec k 0) as [->|Hk]; [done|]. rewrite IH.
    destruct (decide (0 <= k - 1)), (decide (0 <= k)); try lia; [|done].
    by replace (Z.to_nat k) with (S (Z.to_nat (k - 1))) by lia.
Qed.

Lemma in_slot_lookup (visit : ptr A -> option (ptr A * B)) (arr : list (ptr A)) (k : Z) :
  in_slot visit arr k =
  if decide (0 <= k)
  then p ← arr !! Z.to_nat k; '(p', b) ← visit p; Some (<[Z.to_nat k := p']> arr, b)
  else None.
Proof.
  revert k. induction arr as [|p arr IH]; intros k; simpl.
  - by destruct (decide _).
  - destruct (Z.eqb_spec k 0) as [->|Hk]; simpl.
    { by destruct (visit p) as [[p' b]|]. }
    rewrite IH.
    destruct (decide (0 <= k - 1)), (decide (0 <= k)); try lia; [|done].
    replace (Z.to_nat k) with (S (Z.to_nat (k - 1))) by lia. simpl.
    destruct (arr !! Z.to_nat (k - 1)) as [q|]; [simpl|done].
    by destruct (visit q) as [[q' b]|].
Qed.

(** The loop reads the cells 0, ..., n-1 in turn: it is defined when the
    array has at least [n] cells and all the visits are. *)
Lemma each_slot_all (visit : ptr A -> option (list B)) (f : ptr A -> list B)
    (arr : list (ptr A)) :
  Forall (fun p => visit p = Some (f p)) arr ->
  each_slot visit arr (length arr) = Some (concat (map f arr)).
Proof.
  induction 1 as [|p arr Hp _ IH]; [done|]. simpl. by rewrite Hp, IH.
Qed.

Lemma each_slot_short (visit : ptr A -> option (list B)) (arr : list (ptr A)) (n : nat) :
  (length arr < n)%nat -> each_slot visit arr n = None.
Proof.
  revert n. induction arr as [|p arr IH]; intros [|n] Hn; simpl in *; try lia; [done|].
  destruct (visit p); [simpl|done]. rewrite IH by lia. done.
Qed.

(** [each_slot] is the loop [for (k = 0 ; k < n ; ++k) visit (arr[k])]. *)
Lemma each_slot_lookup (visit : ptr A -> option (list B)) (arr : list (ptr A))
    (i n : nat) :
  each_slot visit (drop i arr) n =
  @concat _ <$> mapM (fun k => arr !! k ≫= visit) (seq i n).
Proof.
  revert i. induction n as [|n IH]; intros i; [by destruct (drop i arr)|]. simpl.
  destruct (arr !! i) as [p|] eqn:Hp.
  - rewrite (drop_S _ _ _ Hp). simpl. destruct (visit p) as [t|]; [simpl|done].
    rewrite IH. by destruct (mapM _ (seq (S i) n)).
  - by rewrite drop_ge by (by apply lookup_ge_None).
Qed.
End slot_facts.

(** ** The host allocator *)

Section allocator.
Context {host : VlHost} {A : Type}.

Lemma vl_malloc_cells_block (K : Z) :
  vl_malloc0_null = false \/ 0 < K ->
  vl_malloc_cells (A := A) K = Some (replicate (Z.to_nat K) Indet).
Proof.
  unfold vl_malloc_cells. intros [->|HK]; [done|].
  by rewrite (proj2 (Z.leb_gt _ _) HK), andb_false_r.
Qed.

Lemma vl_malloc_cells_null (K : Z) :
  vl_malloc0_null = true -> K <= 0 -> vl_malloc_cells (A := A) K = None.
Proof.
  unfold vl_malloc_cells. intros -> HK. by rewrite (proj2 (Z.leb_le _ _) HK).
Qed.

Lemma vl_malloc_cells_cases (K : Z) :
  (vl_malloc_cells (A := A) K = Some (replicate (Z.to_nat K) Indet)
   /\ (vl_malloc0_null = false \/ 0 < K))
  \/ (vl_malloc_cells (A := A) K = None /\ vl_malloc0_null = true /\ K <= 0).
Proof.
  destruct vl_malloc0_null eqn:Hnull.
  - destruct (Z.leb_spec K 0) as [HK|HK].
    + right. by rewrite vl_malloc_cells_null.
    + left. rewrite vl_malloc_cells_block; auto.
  - left. rewrite vl_malloc_cells_block; auto.
Qed.

End allocator.

(** ** Induction on nodes *)

Section node_facts.
Context {VlIKMFilt VlRand : Type} {E : IKM VlIKMFilt VlRand} {host : VlHost}.
Local Abbreviation VlHIKMNode := (VlHIKMNode VlIKMFilt).
Local Abbreviation VlHIKMTree := (VlHIKMTree VlIKMFilt).
Local Abbreviation free_event := (free_event VlIKMFilt).

Lemma node_induction (P : VlHIKMNode -> Prop) :
  (forall filter, P (mkNode filter None)) ->
  (forall filter array,
      Forall (fun p => match p with Ptr c => P c | _ => True end) array ->
      P (mkNode filter (Some array))) ->
  forall node, P node.
Proof.
  intros Hleaf Hinner. fix IH 1.
  intros [filter [array|]]; [|apply Hleaf]. apply Hinner.
  induction array as [|p array IHarray]; constructor; [|exact IHarray].
  destruct p as [| |c]; [exact I|exact I|apply IH].
Qed.

(** ** The recursion of [xmeans] *)

(** The recursion equation of [xmeans], as in the source: the bound on
    the levels has disappeared. *)
Lemma xmeans_unfold tree data N K height r :
  xmeans tree data N K height r =
  let '(filter, ids, r) := train_filter tree data N K r in
  let children := if height =? 1 then None else vl_malloc_cells K in
  if 1 <? height then
    match children with
    | Some array =>
        let '(array, r) :=
          xmeans_children
            (fun partition partition_N partition_K r =>
               xmeans tree partition partition_N partition_K (height - 1) r)
            tree data ids N K array r in
        (mkNode filter (Some array), r)
    | None => (mkNode filter None, r)
    end
  else (mkNode filter children, r).
Proof.
  unfold xmeans. destruct (Z.ltb_spec 1 height) as [Hh|Hh].
  - replace (Z.to_nat (height - 1)) with (S (Z.to_nat (height - 1 - 1))) by lia.
    simpl. destruct (train_filter tree data N K r) as [[filter ids] r1].
    destruct (Z.eqb_spec height 1); [lia|].
    destruct (vl_malloc_cells K) as [array|]; [|done].
    destruct (Z.ltb_spec 1 height); [done|lia].
  - replace (Z.to_nat (height - 1)) with O by lia.
    simpl. destruct (train_filter tree data N K r) as [[filter ids] r1].
    by destruct (if height =? 1 then None else vl_malloc_cells K).
Qed.

Lemma build_children_snoc (build : list Z -> Z -> Z -> VlRand -> VlHIKMNode * VlRand)
    M data ids N K labels k (r : VlRand) :
  build_children build M data ids N K (labels ++ [k]) r =
  let '(cs, r) := build_children build M data ids N K labels r in
  let '(subset, N_k) := vl_hikm_copy_subset data ids N M k in
  let '(child, r) := build subset N_k (Z.min K N_k) r in
  (cs ++ [Ptr child], r).
Proof.
  revert r. induction labels as [|k' labels IH]; intros r; simpl.
  - destruct (vl_hikm_copy_subset data ids N M k) as [subset N_k].
    by destruct (build subset N_k (Z.min K N_k) r).
  - destruct (vl_hikm_copy_subset data ids N M k') as [subset' N_k'].
    destruct (build subset' N_k' (Z.min K N_k') r) as [child' r1].
    rewrite IH. destruct (build_children build M data ids N K labels r1) as [cs r2].
    destruct (vl_hikm_copy_subset data ids N M k) as [subset N_k].
    by destruct (build subset N_k (Z.min K N_k) r2).
Qed.

Lemma build_children_length (build : list Z -> Z -> Z -> VlRand -> VlHIKMNode * VlRand)
    M data ids N K labels (r : VlRand) :
  length (build_children build M data ids N K labels r).1 = length labels.
Proof.
  revert r. induction labels as [|k labels IH]; intros r; simpl; [done|].
  destruct (vl_hikm_copy_subset data ids N M k) as [subset N_k].
  destruct (build subset N_k (Z.min K N_k) r) as [child r1].
  specialize (IH r1).
  destruct (build_children build M data ids N K labels r1) as [cs r2].
  simpl in *. by rewrite IH.
Qed.

Lemma seqZ_snoc (n : nat) : seqZ 0 (Z.of_nat (S n)) = seqZ 0 (Z.of_nat n) ++ [Z.of_nat n].
Proof.
  unfold seqZ. rewrite !Nat2Z.id, seq_S, fmap_app. simpl. by rewrite Z.add_0_r.
Qed.

(** The loop of the source, which writes the cells of a fresh array one
    by one, produces the list of children of the specification. *)
Lemma xmeans_children_build
    (recurse : list Z -> Z -> Z -> VlRand -> VlHIKMNode * VlRand)
    (tree : VlHIKMTree) data ids N K (r : VlRand) :
  xmeans_children recurse tree data ids N K (replicate (Z.to_nat K) Indet) r =
  build_children recurse (tree_M tree) data ids N K (seqZ 0 K) r.
Proof.
  unfold xmeans_children, for_range.
  set (body := fun (k : Z) '(children, r) => _).
  set (n := Z.to_nat K).
  assert (Hinv : forall k, (k <= n)%nat ->
    for_loop k 0 body (replicate n Indet, r) =
    let '(cs, r') :=
      build_children recurse (tree_M tree) data ids N K (seqZ 0 (Z.of_nat k)) r in
    (cs ++ replicate (n - k) Indet, r')).
  { induction k as [|k IH]; intros Hk.
    - simpl. by rewrite Nat.sub_0_r.
    - rewrite for_loop_snoc, Z.add_0_l, IH by lia.
      rewrite seqZ_snoc, build_children_snoc.
      pose proof (build_children_length recurse (tree_M tree) data ids N K
                    (seqZ 0 (Z.of_nat k)) r) as Hlen.
      destruct (build_children recurse (tree_M tree) data ids N K
                  (seqZ 0 (Z.of_nat k)) r) as [cs r1].
      simpl in Hlen. rewrite length_seqZ, Nat2Z.id in Hlen.
      unfold body.
      destruct (vl_hikm_copy_subset data ids N (tree_M tree) (Z.of_nat k))
        as [subset N_k].
      rewrite VL_MIN_min.
      destruct (recurse subset N_k (Z.min K N_k) r1) as [child r2].
      f_equal. rewrite Nat2Z.id.
      replace (n - k)%nat with (S (n - S k)) by lia.
      rewrite <- Hlen at 1.
      rewrite insert_app_r_alt, Nat.sub_diag by done. simpl.
      by rewrite <- app_assoc. }
  rewrite Hinv by done.
  replace (seqZ 0 K) with (seqZ 0 (Z.of_nat n))
    by (unfold seqZ; by rewrite Nat2Z.id).
  destruct (build_children _ _ _ _ _ _ _ _) as [cs r'].
  by rewrite Nat.sub_diag, app_nil_r.
Qed.
End node_facts.

(** ** The shape of the trees that [xmeans] builds *)

Section shape.
Context {VlIKMFilt VlRand : Type} {E : IKM VlIKMFilt VlRand} {host : VlHost}.
Local Abbreviation VlHIKMNode := (VlHIKMNode VlIKMFilt).
Local Abbreviation VlHIKMTree := (VlHIKMTree VlIKMFilt).
Local Abbreviation free_event := (free_event VlIKMFilt).

(** With more than one level to go: the children are those of
    [build_children], held by the block that [vl_malloc] returned, if it
    returned one. *)
Lemma xmeans_spec_form tree data N K height r :
  1 < height ->
  xmeans tree data N K height r =
  let '(filter, ids, r1) := train_filter tree data N K r in
  let '(children, r2) :=
    build_children
      (fun subset N_k K_k r => xmeans tree subset N_k K_k (height - 1) r)
      (tree_M tree) data ids N K (seqZ 0 K) r1 in
  (mkNode filter ((fun _ => children) <$> vl_malloc_cells (A := VlHIKMNode) K), r2).
Proof.
  intros Hh. rewrite xmeans_unfold.
  destruct (train_filter tree data N K r) as [[filter ids] r1].
  destruct (Z.ltb_spec 1 height); [|lia].
  destruct (Z.eqb_spec height 1); [lia|].
  destruct (vl_malloc_cells_cases (A := VlHIKMNode) K) as [[-> _]|(-> & _ & HK)];
    cbv zeta iota beta.
  - rewrite xmeans_children_build. by destruct (build_children _ _ _ _ _ _ _ _).
  - unfold seqZ. by replace (Z.to_nat K) with O by lia.
Qed.

Lemma xmeans_block_form tree data N K height r :
  1 < height -> vl_malloc0_null = false \/ 0 < K ->
  xmeans tree data N K height r =
  let '(filter, ids, r1) := train_filter tree data N K r in
  let '(children, r2) :=
    build_children
      (fun subset N_k K_k r => xmeans tree subset N_k K_k (height - 1) r)
      (tree_M tree) data ids N K (seqZ 0 K) r1 in
  (mkNode filter (Some children), r2).
Proof.
  intros Hh Hblock. rewrite xmeans_spec_form by done.
  by rewrite vl_malloc_cells_block by done.
Qed.

Lemma xmeans_null_form tree data N K height r :
  1 < height -> vl_malloc0_null = true -> K <= 0 ->
  xmeans tree data N K height r =
  let '(filter, ids, r1) := train_filter tree data N K r in
  (mkNode filter None, r1).
Proof.
  intros Hh Hnull HK. rewrite xmeans_spec_form by done.
  rewrite vl_malloc_cells_null by done.
  destruct (train_filter tree data N K r) as [[filter ids] r1].
  unfold seqZ. by replace (Z.to_nat K) with O by lia.
Qed.

Lemma xmeans_leaf tree data N K r :
  xmeans tree data N K 1 r =
  let '(filter, ids, r1) := train_filter tree data N K r in
  (mkNode filter None, r1).
Proof. rewrite xmeans_unfold. by destruct (train_filter tree data N K r) as [[? ?] ?]. Qed.

Lemma xmeans_filter tree data N K height r :
  node_filter (xmeans tree data N K height r).1 = (train_filter tree data N K r).1.1.
Proof.
  rewrite xmeans_unfold.
  destruct (train_filter tree data N K r) as [[filter ids] r1].
  destruct (1 <? height); [|done].
  destruct (if height =? 1 then None else vl_malloc_cells K) as [array|]; [|done].
  cbv zeta iota beta. by destruct (xmeans_children _ tree data ids N K array r1).
Qed.

Lemma build_children_lookup (build : list Z -> Z -> Z -> VlRand -> VlHIKMNode * VlRand)
    M data ids N K labels (r : VlRand) i k :
  labels !! i = Some k ->
  exists r',
    (build_children build M data ids N K labels r).1 !! i =
    Some (Ptr (build (vl_hikm_copy_subset data ids N M k).1
                     (vl_hikm_copy_subset data ids N M k).2
                     (Z.min K (vl_hikm_copy_subset data ids N M k).2) r').1).
Proof.
  revert r i. induction labels as [|k' labels IH]; intros r i Hi; [done|].
  simpl. destruct (vl_hikm_copy_subset data ids N M k') as [subset' N_k'] eqn:Hsub.
  destruct (build subset' N_k' (Z.min K N_k') r) as [child' r1] eqn:Hchild.
  destruct i as [|i]; simpl in Hi.
  - injection Hi as <-. exists r. rewrite Hsub. simpl. rewrite Hchild.
    by destruct (build_children build M data ids N K labels r1).
  - destruct (IH r1 i Hi) as [r' Hr']. exists r'.
    by destruct (build_children build M data ids N K labels r1).
Qed.

Lemma build_children_all (P : VlHIKMNode -> Prop) (build : list Z -> Z -> Z -> VlRand -> VlHIKMNode * VlRand)
    M data ids N K labels (r : VlRand) :
  (forall subset N_k r', 0 <= N_k -> P (build subset N_k (Z.min K N_k) r').1) ->
  Forall (fun p => exists c, p = Ptr c /\ P c)
         (build_children build M data ids N K labels r).1.
Proof.
  intros Hbuild. revert r. induction labels as [|k labels IH]; intros r; simpl.
  - constructor.
  - pose proof (copy_subset_count data ids N M k) as Hcount.
    destruct (vl_hikm_copy_subset data ids N M k) as [subset N_k].
    pose proof (Hbuild subset N_k r) as Hc.
    destruct (build subset N_k (Z.min K N_k) r) as [child r1].
    specialize (IH r1).
    destruct (build_children build M data ids N K labels r1) as [cs r2].
    constructor; [|done]. exists child. split; [done|].
    apply Hc. simpl in Hcount. lia.
Qed.

(** The children of the specification are those of the loop when the
    data hold [N] points of dimension [M]. *)
Lemma build_children_attach (build : list Z -> Z -> Z -> VlRand -> VlHIKMNode * VlRand)
    M data ids N K labels (r : VlRand) :
  0 <= N -> 0 <= M -> length data = Z.to_nat (N * M) ->
  build_children build M data ids N K labels r
  = attach_children build M data ids N K labels r.
Proof.
  intros HN HM Hdata. revert r. induction labels as [|k labels IH]; intros r; [done|].
  simpl. rewrite copy_subset_selected by done.
  destruct (build _ _ _ r) as [child r1]. by rewrite IH.
Qed.

(** Where every allocation of a children array returns a block, the
    node built with [height] has exactly [height - 1] levels below it. *)
Lemma xmeans_levels tree data N K height r :
  vl_malloc0_null = false -> 1 <= height ->
  levels (Z.to_nat (height - 1)) (xmeans tree data N K height r).1.
Proof.
  intros Hblock Hh. remember (Z.to_nat (height - 1)) as h eqn:Hheq.
  revert data N K height r Hh Hheq.
  induction h as [|h IH]; intros data N K height r Hh Hheq.
  - assert (height = 1) as -> by lia. rewrite xmeans_leaf.
    by destruct (train_filter tree data N K r) as [[? ?] ?].
  - rewrite xmeans_block_form by (lia || auto).
    destruct (train_filter tree data N K r) as [[filter ids] r1].
    set (build := fun subset N_k K_k r => _).
    pose proof (build_children_all (levels h) build (tree_M tree) data ids N K
                  (seqZ 0 K) r1) as Hall.
    destruct (build_children build (tree_M tree) data ids N K (seqZ 0 K) r1)
      as [cs r2].
    exists cs. split; [done|]. apply Hall.
    intros subset N_k r' _. apply IH; lia.
Qed.

(** On every host the node built with [height] has at most [height - 1]
    levels below it. *)
Lemma xmeans_within tree data N K height r :
  1 <= height ->
  within (Z.to_nat (height - 1)) (xmeans tree data N K height r).1.
Proof.
  intros Hh. remember (Z.to_nat (height - 1)) as h eqn:Hheq.
  revert data N K height r Hh Hheq.
  induction h as [|h IH]; intros data N K height r Hh Hheq.
  - assert (height = 1) as -> by lia. rewrite xmeans_leaf.
    by destruct (train_filter tree data N K r) as [[? ?] ?].
  - rewrite xmeans_spec_form by lia.
    destruct (train_filter tree data N K r) as [[filter ids] r1].
    set (build := fun subset N_k K_k r => _).
    pose proof (build_children_all (within h) build (tree_M tree) data ids N K
                  (seqZ 0 K) r1) as Hall.
    destruct (build_children build (tree_M tree) data ids N K (seqZ 0 K) r1)
      as [cs r2].
    destruct (vl_malloc_cells K); [|done]. simpl. apply Hall.
    intros subset N_k r' _. apply IH; lia.
Qed.

(** C3.  With more than one level to go, on [N] points of dimension [M],
    [xmeans] trains the node, takes the labels 0, ..., K-1 in ascending
    order and, for each label [k], builds the child with [height - 1] on
    the points whose label is [k], in their order, for the branching
    factor [min (K, N_k)], [N_k] being the number of these points, and
    stores it in the cell [k] of the block that [vl_malloc] returned for
    the [K] cells; a child is built for every label, on no point when no
    point has the label; and [vl_hikm_train] calls [xmeans] on the whole
    data with the minimum of the configured branching factor and [N],
    and the configured depth. *)
Theorem builder_recursion f data N K height r :
  1 < height -> 0 <= N -> 0 <= tree_M f ->
  length data = Z.to_nat (N * tree_M f) ->
  let ids := (train_filter f data N K r).1.2 in
  xmeans f data N K height r =
    (let '(filter, ids, r1) := train_filter f data N K r in
     let '(children, r2) :=
       attach_children
         (fun subset N_k K_k r => xmeans f subset N_k K_k (height - 1) r)
         (tree_M f) data ids N K (seqZ 0 K) r1 in
     (mkNode filter ((fun _ => children) <$> vl_malloc_cells (A := VlHIKMNode) K), r2))
  /\ (forall k, 0 <= k < K ->
        let matching := selected ids k (Z.to_nat N) in
        let N_k := Z.of_nat (length matching) in
        exists array r',
          node_children (xmeans f data N K height r).1 = Some array
          /\ Z.of_nat (length array) = K
          /\ array !! Z.to_nat k
             = Some (Ptr (xmeans f (concat (point data (tree_M f) <$> matching)) N_k
                                 (Z.min K N_k) (height - 1) r').1))
  /\ vl_hikm_train f data N r =
    (let '(root, r') :=
       xmeans f data N (Z.min (tree_K f) N) (tree_depth f) r in
     (set_root f (Ptr root), r')).
Proof.
  intros Hh HN HM Hdata ids. split_and!.
  - rewrite xmeans_spec_form by done.
    destruct (train_filter f data N K r) as [[filter ids'] r1].
    by rewrite build_children_attach.
  - intros k Hk matching N_k. subst matching N_k ids.
    rewrite xmeans_block_form by (done || right; lia).
    destruct (train_filter f data N K r) as [[filter ids'] r1]. simpl.
    set (build := fun subset N_k K_k r => _).
    pose proof (build_children_length build (tree_M f) data ids' N K (seqZ 0 K) r1)
      as Hlen.
    destruct (build_children_lookup build (tree_M f) data ids' N K (seqZ 0 K) r1
                (Z.to_nat k) k) as [r' Hr']; [apply lookup_seqZ; lia|].
    destruct (build_children build (tree_M f) data ids' N K (seqZ 0 K) r1)
      as [cs r2].
    simpl in *. rewrite copy_subset_selected in Hr' by done. simpl in Hr'.
    exists cs, r'. split_and!; [done|rewrite Hlen, length_seqZ; lia|exact Hr'].
  - unfold vl_hikm_train. by rewrite VL_MIN_min.
Qed.

Context {C : IKMContract E}.

Lemma train_filter_K tree data N K r :
  0 <= K -> vl_ikm_get_K (train_filter tree data N K r).1.1 = K.
Proof.
  intros HK. unfold train_filter.
  pose proof (ikm_init_K
    (vl_ikm_set_verbosity
       (vl_ikm_set_max_niters (vl_ikm_new (tree_method tree)) (tree_max_niters tree))
       (tree_verb tree - 1)) data (tree_M tree) N K r HK) as Hinit.
  destruct (vl_ikm_init_rand_data _ data (tree_M tree) N K r) as [f1 r1].
  pose proof (ikm_train_K f1 data N r1) as Htrain.
  destruct (vl_ikm_train f1 data N r1) as [f2 r2].
  pose proof (ikm_push_readonly f2 data N) as Hpush.
  destruct (vl_ikm_push f2 data N) as [f3 ids].
  simpl in *. congruence.
Qed.

Lemma xmeans_K tree data N K height r :
  0 <= K -> vl_ikm_get_K (node_filter (xmeans tree data N K height r).1) = K.
Proof. intros HK. rewrite xmeans_filter. by apply train_filter_K. Qed.

(** C2.  A node built with [height = 1] is a leaf.  A node built with
    [height > 1] for the branching factor [K] has a children array of
    exactly [K] cells, [K] being the number of centers of its filter;
    the cell of label [k] points to the node built, with [height - 1],
    on the subset of label [k] for the branching factor [min (K, N_k)],
    where [N_k] is the number of points that the filter labels [k]; that
    minimum is the number of centers of the child's filter.  The array is
    what the children pointer points to, except when [K = 0] on a host
    whose [vl_malloc (0)] is null: the array has no cell and the pointer
    is null. *)
Theorem branching_invariant tree data N K height r :
  0 <= K ->
  let node := (xmeans tree data N K height r).1 in
  let ids := (train_filter tree data N K r).1.2 in
  vl_ikm_get_K (node_filter node) = K
  /\ (height = 1 -> node_children node = None)
  /\ (1 < height ->
      exists array,
        (vl_malloc0_null = false \/ 0 < K -> node_children node = Some array)
        /\ (vl_malloc0_null = true -> K = 0 -> node_children node = None)
        /\ Z.of_nat (length array) = K
        /\ forall k, 0 <= k < K ->
             let N_k := Z.of_nat (length (selected ids k (Z.to_nat N))) in
             exists subset r' child,
               vl_hikm_copy_subset data ids N (tree_M tree) k = (subset, N_k)
               /\ child = (xmeans tree subset N_k (Z.min K N_k) (height - 1) r').1
               /\ array !! Z.to_nat k = Some (Ptr child)
               /\ vl_ikm_get_K (node_filter child) = Z.min K N_k).
Proof.
  intros HK node ids. split_and!.
  - by apply xmeans_K.
  - intros ->. unfold node. rewrite xmeans_leaf.
    by destruct (train_filter tree data N K r) as [[? ?] ?].
  - intros Hh. unfold node, ids. rewrite xmeans_spec_form by done.
    destruct (train_filter tree data N K r) as [[filter ids'] r1]. simpl.
    set (build := fun subset N_k K_k r => _).
    pose proof (build_children_length build (tree_M tree) data ids' N K (seqZ 0 K) r1)
      as Hlen.
    pose proof (fun i k => build_children_lookup build (tree_M tree) data ids' N K
                             (seqZ 0 K) r1 i k) as Hlook.
    destruct (build_children build (tree_M tree) data ids' N K (seqZ 0 K) r1)
      as [cs r2].
    simpl in *. exists cs. split_and!.
    + intros Hblock. by rewrite vl_malloc_cells_block.
    + intros Hnull ->. by rewrite vl_malloc_cells_null.
    + rewrite Hlen, length_seqZ. lia.
    + intros k Hk.
      destruct (Hlook (Z.to_nat k) k) as [r' Hr'].
      { apply lookup_seqZ. lia. }
      pose proof (copy_subset_count data ids' N (tree_M tree) k) as Hcount.
      destruct (vl_hikm_copy_subset data ids' N (tree_M tree) k) as [subset N_k].
      simpl in Hcount, Hr'. subst N_k.
      eexists subset, r', _. split_and!; [done|done|exact Hr'|].
      apply xmeans_K. lia.
Qed.
End shape.

(** ** Destruction *)

Section destruction.
Context {VlIKMFilt VlRand : Type} {E : IKM VlIKMFilt VlRand} {host : VlHost}.
Local Abbreviation VlHIKMNode := (VlHIKMNode VlIKMFilt).
Local Abbreviation VlHIKMTree := (VlHIKMTree VlIKMFilt).
Local Abbreviation free_event := (free_event VlIKMFilt).

(** [xdelete] in terms of array accesses, as in the source. *)
Lemma xdelete_unfold filter children :
  xdelete (mkNode filter children) =
  below ←
    match children with
    | None => Some []
    | Some array =>
        freed ←
          @concat _ <$> mapM (fun k => array !! k ≫= xdelete_ptr)
                          (seq 0 (Z.to_nat (vl_ikm_get_K filter)));
        Some (freed ++ [EvFreeChildren (mkNode filter children)])
    end;
  Some (below ++ [EvIkmDelete filter; EvFreeNode (mkNode filter children)]).
Proof.
  destruct children as [array|]; [|done]. simpl.
  by rewrite <- (each_slot_lookup _ array 0).
Qed.

Lemma node_wf_inv filter array :
  node_wf (mkNode filter (Some array)) ->
  Z.of_nat (length array) = vl_ikm_get_K filter
  /\ Forall (fun p => p = Null \/ exists c, p = Ptr c /\ node_wf c) array.
Proof. by inversion 1. Qed.

(** On a well-formed subtree the loop of [xdelete], which is bounded by
    the number of centers of the filter, visits each cell of the
    children array once, and nothing else. *)
Lemma xdelete_free_trace node :
  node_wf node -> xdelete node = Some (free_trace node).
Proof.
  induction node as [filter|filter array IH] using node_induction; intros Hwf.
  - done.
  - apply node_wf_inv in Hwf as [Hlen Hcells]. simpl.
    replace (Z.to_nat (vl_ikm_get_K filter)) with (length array) by lia.
    rewrite (each_slot_all _ free_trace_ptr).
    + simpl. by rewrite <- !app_assoc.
    + rewrite Forall_forall in IH, Hcells. apply Forall_forall. intros p Hp.
      specialize (IH p Hp). destruct (Hcells p Hp) as [->|(c & -> & Hc)]; [done|].
      by apply IH.
Qed.

Lemma xdelete_ptr_free_trace f :
  tree_wf f -> xdelete_ptr (tree_root f) = Some (free_trace_ptr (tree_root f)).
Proof.
  unfold tree_wf. destruct (tree_root f) as [| |root]; [done|done|].
  apply xdelete_free_trace.
Qed.

(** Every node of the subtree, its filter, and the children array of
    every inner node are released. *)
Lemma free_trace_covers (node n' : VlHIKMNode) :
  subnode n' node ->
  EvIkmDelete (node_filter n') ∈ free_trace node
  /\ EvFreeNode n' ∈ free_trace node
  /\ (is_Some (node_children n') -> EvFreeChildren n' ∈ free_trace node).
Proof.
  induction 1 as [|node array child Harr Hin _ IH].
  - destruct n' as [filter [array|]]; simpl;
      rewrite ?elem_of_app, ?elem_of_cons; split_and!; auto.
    by intros [? ?].
  - destruct node as [filter children]. simpl in Harr. subst children.
    assert (Hsub : forall e, e ∈ free_trace child ->
              e ∈ free_trace (mkNode filter (Some array))).
    { intros e He. simpl. rewrite !elem_of_app. left. left.
      apply list_elem_of_In, in_concat. exists (free_trace child).
      split; [|by apply list_elem_of_In].
      apply in_map_iff. exists (Ptr child). split; [done|].
      by apply list_elem_of_In. }
    destruct IH as (H1 & H2 & H3). split_and!; auto.
Qed.

(** C9.  On a tree without root, or whose root is a well-formed subtree
    (the trees that [vl_hikm_new], [vl_hikm_init] and [vl_hikm_train]
    produce), [vl_hikm_init] releases the whole subtree of the root, then
    leaves a tree whose dimension, branching factor and depth are the
    arguments and whose root is null; the other fields are unchanged. *)
Theorem init_configures f M K depth :
  tree_wf f ->
  exists f',
    vl_hikm_init f M K depth = Some (free_trace_ptr (tree_root f), f')
    /\ tree_M f' = M /\ tree_K f' = K /\ tree_depth f' = depth
    /\ tree_root f' = Null
    /\ tree_max_niters f' = tree_max_niters f
    /\ tree_method f' = tree_method f
    /\ tree_verb f' = tree_verb f
    /\ (forall root n', tree_root f = Ptr root -> subnode n' root ->
          EvIkmDelete (node_filter n') ∈ free_trace_ptr (tree_root f)
          /\ EvFreeNode n' ∈ free_trace_ptr (tree_root f)).
Proof.
  intros Hwf.
  exists (mkTree M K (tree_max_niters f) (tree_method f) (tree_verb f) depth Null).
  split_and!; try reflexivity.
  - unfold vl_hikm_init. by rewrite xdelete_ptr_free_trace.
  - intros root n' Hroot Hsub. rewrite Hroot. simpl.
    destruct (free_trace_covers root n' Hsub) as (? & ? & _). done.
Qed.

(** C8, amended.  [vl_hikm_delete] on a tree without root releases the
    tree record only.  On a trained tree it releases, for each node, the
    subtrees of the children in the order of the cells, then the children
    array, then the clustering model, then the node; the tree record
    comes last. *)
Theorem delete_order t :
  tree_wf t ->
  vl_hikm_delete (Ptr t) = Some (free_trace_ptr (tree_root t) ++ [EvFreeTree t])
  /\ (tree_root t = Null -> vl_hikm_delete (Ptr t) = Some [EvFreeTree t])
  /\ (forall filter : VlIKMFilt,
        free_trace (mkNode filter None)
        = [EvIkmDelete filter; EvFreeNode (mkNode filter None)])
  /\ (forall (filter : VlIKMFilt) array,
        free_trace (mkNode filter (Some array))
        = concat (map free_trace_ptr array)
            ++ [EvFreeChildren (mkNode filter (Some array));
                EvIkmDelete filter;
                EvFreeNode (mkNode filter (Some array))]).
Proof.
  intros Hwf.
  assert (Hdel : vl_hikm_delete (Ptr t)
                 = Some (free_trace_ptr (tree_root t) ++ [EvFreeTree t])).
  { unfold vl_hikm_delete. by rewrite xdelete_ptr_free_trace. }
  split_and!; [done| |done|].
  - intros Hroot. by rewrite Hdel, Hroot.
  - intros filter array. simpl. by rewrite <- app_assoc.
Qed.

Lemma new_wf method : tree_wf (vl_hikm_new method).
Proof. done. Qed.

Lemma init_wf f M K depth freed f' :
  vl_hikm_init f M K depth = Some (freed, f') -> tree_wf f'.
Proof.
  unfold vl_hikm_init. destruct (xdelete_ptr (tree_root f)); [|done].
  simpl. by intros [= _ <-].
Qed.

Context {C : IKMContract E}.

Lemma xmeans_wf tree data N K height r :
  0 <= K -> 1 <= height -> node_wf (xmeans tree data N K height r).1.
Proof.
  intros HK Hh. remember (Z.to_nat (height - 1)) as h eqn:Hheq.
  revert data N K height r HK Hh Hheq.
  induction h as [|h IH]; intros data N K height r HK Hh Hheq.
  - assert (height = 1) as -> by lia. rewrite xmeans_leaf.
    destruct (train_filter tree data N K r) as [[? ?] ?]. constructor.
  - pose proof (train_filter_K tree data N K r HK) as HfK.
    rewrite xmeans_spec_form by lia.
    destruct (train_filter tree data N K r) as [[filter ids] r1].
    set (build := fun subset N_k K_k r => _).
    pose proof (build_children_all node_wf build (tree_M tree) data ids N K
                  (seqZ 0 K) r1) as Hall.
    pose proof (build_children_length build (tree_M tree) data ids N K (seqZ 0 K) r1)
      as Hlen.
    destruct (build_children build (tree_M tree) data ids N K (seqZ 0 K) r1)
      as [cs r2].
    simpl in *. destruct (vl_malloc_cells K); [simpl|constructor]. constructor.
    + rewrite Hlen, length_seqZ, HfK. lia.
    + eapply Forall_impl; [apply Hall|].
      * intros subset N_k r' HN_k. apply IH; lia.
      * intros p (c & -> & Hc). right. by exists c.
Qed.

Lemma train_wf f data N r :
  0 <= tree_K f -> 0 <= N -> 1 <= tree_depth f ->
  tree_wf (vl_hikm_train f data N r).1.
Proof.
  intros HK HN HD. unfold vl_hikm_train, tree_wf.
  pose proof (xmeans_wf f data N (VL_MIN (tree_K f) N) (tree_depth f) r) as Hwf.
  destruct (xmeans f data N (VL_MIN (tree_K f) N) (tree_depth f) r) as [root r'].
  simpl. apply Hwf; [rewrite VL_MIN_min; lia|done].
Qed.
End destruction.

(** ** Assignment *)

Lemma write_labels_inserts i labels asgn :
  0 <= i -> write_labels i labels asgn = list_inserts (Z.to_nat i) labels asgn.
Proof.
  revert i asgn. induction labels as [|l labels IH]; intros i asgn Hi; [done|].
  simpl. rewrite IH by lia.
  replace (Z.to_nat (i + 1)) with (S (Z.to_nat i)) by lia.
  by rewrite list_insert_inserts_lt by lia.
Qed.


(** The loop that writes the labels of datum [i] from position [i * D]
    on, the walks having at most [D] labels: the array keeps its length,
    the label of level [d] of datum [i] is at position [i * D + d], and
    the other cells keep what they held. *)
Lemma writes_lookup (paths : nat -> list vl_uint) (D : Z) (asgn : list vl_uint) (n : nat) :
  0 <= D ->
  (forall i, (i < n)%nat -> (length (paths i) <= Z.to_nat D)%nat) ->
  let out :=
    for_loop n 0 (fun i a => write_labels (i * D) (paths (Z.to_nat i)) a) asgn in
  length out = length asgn
  /\ (forall i d, (i < n)%nat -> (d < length (paths i))%nat ->
        (i * Z.to_nat D + d < length asgn)%nat ->
        out !! (i * Z.to_nat D + d)%nat = paths i !! d)
  /\ (forall j,
        (forall i, (i < n)%nat ->
           ~ (i * Z.to_nat D <= j < i * Z.to_nat D + length (paths i))%nat) ->
        out !! j = asgn !! j).
Proof.
  intros HD. induction n as [|n IH]; intros Hlen out.
  - subst out. simpl. split_and!; [done|lia|done].
  - destruct IH as (IHlen & IHin & IHout); [intros; apply Hlen; lia|].
    subst out. rewrite for_loop_snoc, Z.add_0_l, Nat2Z.id.
    rewrite write_labels_inserts by lia.
    replace (Z.to_nat (Z.of_nat n * D)) with (n * Z.to_nat D)%nat
      by (rewrite Z2Nat.inj_mul, Nat2Z.id; lia).
    set (prev := for_loop n 0 _ asgn) in *.
    pose proof (Hlen n (Nat.lt_succ_diag_r n)) as Hn.
    split_and!.
    + by rewrite length_inserts.
    + intros i d Hi Hd Hfit. destruct (decide (i = n)) as [->|Hne].
      * rewrite list_lookup_inserts by lia. f_equal. lia.
      * assert (i < n)%nat by lia. pose proof (Hlen i Hi).
        rewrite list_lookup_inserts_lt by nia. by apply IHin.
    + intros j Hj. pose proof (Hj n (Nat.lt_succ_diag_r n)) as Hjn.
      destruct (decide (j < n * Z.to_nat D)%nat).
      * rewrite list_lookup_inserts_lt by done. apply IHout. intros i Hi. apply Hj. lia.
      * rewrite list_lookup_inserts_ge by lia. apply IHout. intros i Hi. apply Hj. lia.
Qed.


Section assignment.
Context {VlIKMFilt VlRand : Type} {E : IKM VlIKMFilt VlRand} {host : VlHost} {C : IKMContract E}.
Local Abbreviation VlHIKMNode := (VlHIKMNode VlIKMFilt).
Local Abbreviation VlHIKMTree := (VlHIKMTree VlIKMFilt).
Local Abbreviation free_event := (free_event VlIKMFilt).

(** [push_node] in terms of array accesses, as in the source. *)
Lemma push_node_unfold x base filter children d asgn :
  push_node x base (mkNode filter children) d asgn =
  let '(filter', out) := vl_ikm_push filter x 1 in
  best ← head out;
  let asgn' := <[Z.to_nat (base + d) := best]> asgn in
  match children with
  | None => Some (mkNode filter' None, asgn')
  | Some array =>
      if decide (0 <= best) then
        child ← array !! Z.to_nat best;
        match child with
        | Indet => None
        | Null => Some (mkNode filter' (Some array), asgn')
        | Ptr c =>
            '(c', asgn'') ← push_node x base c (d + 1) asgn';
            Some (mkNode filter' (Some (<[Z.to_nat best := Ptr c']> array)), asgn'')
        end
      else None
  end.
Proof.
  simpl. destruct (vl_ikm_push filter x 1) as [filter' out].
  destruct (head out) as [best|]; [simpl|done].
  destruct children as [array|]; [|done].
  rewrite in_slot_lookup. destruct (decide (0 <= best)); [|done].
  destruct (array !! Z.to_nat best) as [[| |c]|] eqn:Hp; simpl; [done| |..|done].
  - by rewrite list_insert_id.
  - by destruct (push_node x base c (d + 1) _) as [[c' asgn'']|].
Qed.

(** The loop of [vl_hikm_push] for one datum follows the walk of the
    specification, writes its labels from position [base + d] on, and
    leaves the node as it was. *)
Lemma push_node_path x base node d asgn :
  push_node x base node d asgn =
  path ← hikm_path node x; Some (node, write_labels (base + d) path asgn).
Proof.
  revert d asgn.
  induction node as [filter|filter array IH] using node_induction; intros d asgn; simpl.
  - pose proof (ikm_push_readonly filter x 1) as Hro.
    destruct (vl_ikm_push filter x 1) as [filter' out]. simpl in *. subst filter'.
    by destruct (head out).
  - pose proof (ikm_push_readonly filter x 1) as Hro.
    destruct (vl_ikm_push filter x 1) as [filter' out]. simpl in *. subst filter'.
    destruct (head out) as [best|]; [simpl|done].
    rewrite in_slot_lookup, at_slot_lookup.
    destruct (decide (0 <= best)); [|done].
    destruct (array !! Z.to_nat best) as [p|] eqn:Hp; [simpl|done].
    destruct p as [| |c]; simpl; [done| |].
    + by rewrite list_insert_id.
    + rewrite Forall_forall in IH.
      specialize (IH (Ptr c) (list_elem_of_lookup_2 _ _ _ Hp)). simpl in IH.
      rewrite IH. destruct (hikm_path c x) as [path|]; [simpl|done].
      rewrite list_insert_id by done.
      by replace (base + (d + 1)) with (base + d + 1) by lia.
Qed.

Lemma levels_path_length h node x path :
  levels h node -> hikm_path node x = Some path -> length path = S h.
Proof.
  revert node path. induction h as [|h IH]; intros [filter children] path Hl Hp;
    simpl in Hl, Hp.
  - subst children. destruct (head _); [|done]. by injection Hp as <-.
  - destruct Hl as (array & -> & Hall).
    destruct (head _) as [best|]; [simpl in Hp|done].
    rewrite at_slot_lookup in Hp. destruct (decide (0 <= best)); [|done].
    destruct (array !! Z.to_nat best) as [p|] eqn:Hlook; [simpl in Hp|done].
    rewrite Forall_forall in Hall.
    destruct (Hall p (list_elem_of_lookup_2 _ _ _ Hlook)) as (c & -> & Hc).
    destruct (hikm_path c x) as [rest|] eqn:Hrest; [simpl in Hp|done].
    injection Hp as <-. simpl. f_equal. by apply (IH c).
Qed.

Lemma within_path_length h node x path :
  within h node -> hikm_path node x = Some path -> (length path <= S h)%nat.
Proof.
  revert node path. induction h as [|h IH]; intros [filter children] path Hw Hp;
    simpl in Hw, Hp.
  - destruct children; [done|].
    destruct (head _); [|done]. injection Hp as <-. done.
  - destruct (head _) as [best|]; [simpl in Hp|done].
    destruct children as [array|]; [|injection Hp as <-; simpl; lia].
    rewrite at_slot_lookup in Hp. destruct (decide (0 <= best)); [|done].
    destruct (array !! Z.to_nat best) as [p|] eqn:Hlook; [simpl in Hp|done].
    rewrite Forall_forall in Hw.
    destruct (Hw p (list_elem_of_lookup_2 _ _ _ Hlook)) as (c & -> & Hc).
    destruct (hikm_path c x) as [rest|] eqn:Hrest; [simpl in Hp|done].
    injection Hp as <-. simpl. pose proof (IH c rest Hc Hrest). lia.
Qed.




Lemma set_root_same (f : VlHIKMTree) : set_root f (tree_root f) = f.
Proof. by destruct f. Qed.

(** The loop of [vl_hikm_push] over the data: it is defined when all the
    walks are, leaves the tree as it was, and writes the labels of datum
    [i] from position [i * depth] on. *)
Lemma push_loop f root asgn data (k : nat) :
  tree_root f = Ptr root ->
  for_loop k 0
    (fun i state =>
       '(f', asgn) ← state;
       match tree_root f' with
       | Indet => None
       | Null => Some (f', asgn)
       | Ptr node =>
           '(node, asgn) ←
             push_node (point data (tree_M f) (Z.to_nat i)) (i * tree_depth f) node 0 asgn;
           Some (set_root f' (Ptr node), asgn)
       end)
    (Some (f, asgn))
  = if decide (Forall (fun i => is_Some (hikm_path root (point data (tree_M f) i)))
                      (seq 0 k))
    then Some (f, for_loop k 0
                    (fun i a =>
                       write_labels (i * tree_depth f)
                         (default [] (hikm_path root (point data (tree_M f) (Z.to_nat i)))) a)
                    asgn)
    else None.
Proof.
  intros Hroot. induction k as [|k IH].
  - done.
  - rewrite !for_loop_snoc, IH, !Z.add_0_l, Nat2Z.id, seq_S. simpl.
    destruct (decide (Forall _ (seq 0 k))) as [Hall|Hnot].
    + simpl. rewrite Hroot, push_node_path, Z.add_0_r.
      destruct (hikm_path root (point data (tree_M f) k)) as [path|] eqn:Hpath; simpl.
      * rewrite <- Hroot, set_root_same.
        rewrite decide_True; [done|].
        apply Forall_app. split; [done|]. repeat constructor. by rewrite Hpath.
      * rewrite decide_False; [done|].
        intros [_ Hk]%Forall_app. inversion Hk as [|? ? [? Hk'] _]; subst.
        rewrite Hpath in Hk'. done.
    + simpl. rewrite decide_False; [done|]. by intros [? _]%Forall_app.
Qed.

(** A call of [vl_hikm_push] on a tree with a root is defined when all
    the walks are, returns the tree, and writes the labels of the walk
    of datum [i] from position [i * depth] on. *)
Lemma push_walks f root asgn data N :
  tree_root f = Ptr root ->
  let walk := fun i => hikm_path root (point data (tree_M f) i) in
  vl_hikm_push f asgn data N =
  if decide (Forall (fun i => is_Some (walk i)) (seq 0 (Z.to_nat N)))
  then Some (f, for_loop (Z.to_nat N) 0
                  (fun i a =>
                     write_labels (i * tree_depth f)
                       (default [] (walk (Z.to_nat i))) a)
                  asgn)
  else None.
Proof.
  intros Hroot walk. unfold vl_hikm_push, for_range.
  unfold vl_hikm_get_ndims, vl_hikm_get_depth.
  by rewrite (push_loop f root).
Qed.





Lemma train_root f data N r :
  tree_root (vl_hikm_train f data N r).1
  = Ptr (xmeans f data N (VL_MIN (tree_K f) N) (tree_depth f) r).1
  /\ tree_depth (vl_hikm_train f data N r).1 = tree_depth f
  /\ tree_M (vl_hikm_train f data N r).1 = tree_M f.
Proof.
  unfold vl_hikm_train.
  by destruct (xmeans f data N (VL_MIN (tree_K f) N) (tree_depth f) r).
Qed.
End assignment.

Section walks.
Context {VlIKMFilt VlRand : Type} {E : IKM VlIKMFilt VlRand} {host : VlHost} {C : IKMContract E}.
Local Abbreviation VlHIKMNode := (VlHIKMNode VlIKMFilt).
Local Abbreviation VlHIKMTree := (VlHIKMTree VlIKMFilt).
Local Abbreviation free_event := (free_event VlIKMFilt).

(** C7.  On a tree trained with depth D >= 1, a call of [vl_hikm_push]
    that is defined returns the tree it was given, filters included; and
    the labels it records for a datum are those of the walk of that
    datum from the root: two calls, on whatever data sets and assignment
    arrays, record the same labels, at the same levels, for two data
    that are equal, whatever their positions and the other data are.
    The walk has at most D labels, and exactly D on a host whose
    [vl_malloc (0)] is not null. *)
Theorem push_deterministic f0 data0 N0 r0
    asgn1 data1 N1 f1 out1 asgn2 data2 N2 f2 out2 (i j : nat) :
  let f := (vl_hikm_train f0 data0 N0 r0).1 in
  let D := tree_depth f0 in
  let M := tree_M f0 in
  1 <= D -> 0 <= N1 -> 0 <= N2 ->
  length asgn1 = Z.to_nat (N1 * D) ->
  length asgn2 = Z.to_nat (N2 * D) ->
  vl_hikm_push f asgn1 data1 N1 = Some (f1, out1) ->
  vl_hikm_push f asgn2 data2 N2 = Some (f2, out2) ->
  (i < Z.to_nat N1)%nat -> (j < Z.to_nat N2)%nat ->
  point data1 M i = point data2 M j ->
  f1 = f /\ f2 = f
  /\ exists root path,
       tree_root f = Ptr root
       /\ hikm_path root (point data1 M i) = Some path
       /\ Z.of_nat (length path) <= D
       /\ (vl_malloc0_null = false -> Z.of_nat (length path) = D)
       /\ forall d, (d < length path)%nat ->
            out1 !! (i * Z.to_nat D + d)%nat = path !! d
            /\ out2 !! (j * Z.to_nat D + d)%nat = path !! d.
Proof.
  intros f D M HD HN1 HN2 Hasgn1 Hasgn2 Hpush1 Hpush2 Hi Hj Heq.
  destruct (train_root f0 data0 N0 r0) as (Hroot & Hdepth & HM).
  fold f in Hroot, Hdepth, HM. set (root := (xmeans _ _ _ _ _ _).1) in Hroot.
  subst M. rewrite <- HM in Heq |- *. fold D in Hdepth.
  assert (Hin : within (Z.to_nat (D - 1)) root) by (by apply xmeans_within).
  rewrite (push_walks f root) in Hpush1, Hpush2 by done. rewrite Hdepth in *.
  destruct (decide _) as [Hall1|] in Hpush1; [|done].
  destruct (decide _) as [Hall2|] in Hpush2; [|done].
  injection Hpush1 as <- <-. injection Hpush2 as <- <-.
  rewrite Forall_forall in Hall1, Hall2.
  destruct (Hall1 i) as [path Hpath]; [apply elem_of_seq; lia|].
  assert (Hpath2 : hikm_path root (point data2 (tree_M f) j) = Some path)
    by (by rewrite <- Heq).
  pose proof (within_path_length _ _ _ _ Hin Hpath) as Hle.
  assert (Hbound : forall data k,
    (length (default [] (hikm_path root (point data (tree_M f) k))) <= Z.to_nat D)%nat).
  { intros data k.
    destruct (hikm_path root (point data (tree_M f) k)) as [p|] eqn:Hp; simpl; [|lia].
    pose proof (within_path_length _ _ _ _ Hin Hp). lia. }
  split_and!; [done|done|]. exists root, path. split_and!; [done|done|lia| |].
  { intros Hblock.
    assert (Hlev : levels (Z.to_nat (D - 1)) root) by (by apply xmeans_levels).
    rewrite (levels_path_length _ _ _ _ Hlev Hpath). lia. }
  intros d Hd. split.
  - destruct (writes_lookup
                (fun k => default [] (hikm_path root (point data1 (tree_M f) k)))
                D asgn1 (Z.to_nat N1)) as (_ & Hw & _); [lia|by intros|].
    cbv beta in Hw. rewrite Hw; rewrite ?Hpath; simpl; [done|done|done|].
    rewrite Hasgn1, Z2Nat.inj_mul by lia. nia.
  - destruct (writes_lookup
                (fun k => default [] (hikm_path root (point data2 (tree_M f) k)))
                D asgn2 (Z.to_nat N2)) as (_ & Hw & _); [lia|by intros|].
    cbv beta in Hw. rewrite Hw; rewrite ?Hpath2; simpl; [done|done|done|].
    rewrite Hasgn2, Z2Nat.inj_mul by lia. nia.
Qed.
End walks.

(** ** The concrete engine meets the contract *)

Module LloydFacts.
Import Lloyd.

Lemma nearest_from_range x cs k best best_dist :
  let l := nearest_from x cs k best best_dist in
  l = best \/ k <= l < k + Z.of_nat (length cs).
Proof.
  revert k best best_dist. induction cs as [|c cs IH]; intros k best best_dist; simpl.
  - by left.
  - destruct (dist2 x c <? best_dist).
    + destruct (IH (k + 1) k (dist2 x c)) as [->|?]; right; lia.
    + destruct (IH (k + 1) best best_dist) as [->|?]; [by left|right; lia].
Qed.

Lemma nearest_range cs x :
  0 < Z.of_nat (length cs) -> 0 <= nearest cs x < Z.of_nat (length cs).
Proof.
  destruct cs as [|c cs]; simpl; [lia|]. intros _.
  destruct (nearest_from_range x cs 1 0 (dist2 x c)) as [->|?]; lia.
Qed.

Lemma step_length pts cs : length (step pts cs) = length cs.
Proof. unfold step. apply length_imap. Qed.

Lemma train_length pts cs n : length (Nat.iter n (step pts) cs) = length cs.
Proof. induction n as [|n IH]; simpl; [done|]. by rewrite step_length. Qed.

#[export] Instance contract : IKMContract engine.
Proof.
  split.
  - intros f data M N K r HK. simpl. unfold get_K, init_rand_data, points. simpl.
    rewrite length_fmap, length_seq. lia.
  - intros f data N r. simpl. unfold get_K, train. simpl. by rewrite train_length.
  - done.
  - intros f data N. simpl. unfold push, points. simpl.
    by rewrite !length_fmap, length_seq.
  - intros f data N l HK Hl. simpl in *. unfold push, get_K in *. simpl in Hl.
    apply list_elem_of_fmap in Hl as (x & -> & _). by apply nearest_range.
Qed.
End LloydFacts.

(** ** Examples *)

Module ExampleFacts.
Import Hosts Lloyd LloydFacts Examples.

Example root9_centers :
  (train_filter config9 data9 9 3 tt).1 =
  (mkFilt 0 8 (-1) 1 [[1]; [7]; [14]], [0; 0; 2; 0; 2; 2; 2; 2; 2]).
Proof. vm_compute. reflexivity. Qed.

Example root9_stationary :
  step (points data9 1 9) [[1]; [7]; [14]] = [[1]; [7]; [14]].
Proof. vm_compute. reflexivity. Qed.

Example tree9_push_training_points :
  vl_hikm_push tree9 (replicate 6 0) [1; 23] 2
  = Some (tree9, [0; 0; 0; 2; 0; 0]).
Proof. vm_compute. reflexivity. Qed.

(** The leftmost path of [tree9]: the root, its first child and the first
    child of that one, which is a leaf. *)
Example tree9_leftmost_path :
  exists root child leaf,
    tree_root tree9 = Ptr root
    /\ root_to_leaf root [root; child; leaf].
Proof.
  do 3 eexists. split; [vm_compute; reflexivity|].
  eapply rtl_step; [reflexivity|apply list_elem_of_here|].
  eapply rtl_step; [reflexivity|apply list_elem_of_here|].
  by apply rtl_leaf.
Qed.

(** The root separates the pair near the origin from the pair near
    (9, 9); the training points get the paths 00, 01, 10 and 11, and the
    unseen point (0, 2) goes with the cluster of the origin. *)
Example tree4_root :
  (train_filter config4 data4 4 2 tt).1 =
  (mkFilt 0 8 (-1) 2 [[0; 0]; [9; 9]], [0; 0; 1; 1]).
Proof. vm_compute. reflexivity. Qed.

Example tree4_push_training_points :
  snd <$> vl_hikm_push tree4 (replicate 8 0) data4 4
  = Some [0; 0; 0; 1; 1; 0; 1; 1].
Proof. vm_compute. reflexivity. Qed.

Example tree4_push_unseen :
  snd <$> vl_hikm_push tree4 (replicate 2 0) [0; 2] 1 = Some [0; 1].
Proof. vm_compute. reflexivity. Qed.

Lemma copy_subset_witness :
  let data := [10; 11; 20; 21; 30; 31] in
  let ids := [0; 1; 0] in
  vl_hikm_copy_subset_int data ids 3 2 0 = Some ([10; 11; 30; 31], 2)
  /\ vl_hikm_copy_subset_int data ids 3 2 1 = Some ([20; 21], 1).
Proof.
  intros data ids.
  destruct (vl_hikm_copy_subset_contract data ids 3 2 0) as (H0 & _);
    [by vm_compute|by vm_compute|by vm_compute|reflexivity|reflexivity|].
  destruct (vl_hikm_copy_subset_contract data ids 3 2 1) as (H1 & _);
    [by vm_compute|by vm_compute|by vm_compute|reflexivity|reflexivity|].
  split; [exact H0|exact H1].
Defined.

(** C5 as stated fails: three points of dimension 2^30, the third one
    carrying the requested label.  The data have 3 * 2^30 cells, more
    than [INT_MAX]; the offset [i * M] of the third point, 2^31, is not
    an [int], and the copy of that point is undefined. *)
Lemma copy_subset_counterexample :
  let M := 1073741824 in
  let data := replicate (Z.to_nat (3 * M)) 7 in
  let ids := [0; 0; 1] in
  length ids = Z.to_nat 3
  /\ length data = Z.to_nat (3 * M)
  /\ selected ids 1 (Z.to_nat 3) = [2%nat]
  /\ c_int (2 * M) = None
  /\ vl_hikm_copy_subset_int data ids 3 M 1 = None.
Proof.
  intros M data ids.
  split_and!; [reflexivity|apply length_replicate|reflexivity|reflexivity|].
  lazy. reflexivity.
Qed.


(** C1.  The claim fails on [data9] with three clusters per node and
    depth 3: no training point is nearest to the second center of the
    root, so the second child of the root is built on no point, for no
    center and with height 2; nothing is built below it, and a path from
    the root ends there after 2 nodes.  Where [vl_malloc (0)] returns a
    block the children array of that child has no cell; where it returns
    the null pointer the child is a leaf. *)
Theorem depth_cut_by_empty_cluster :
  tree_depth tree9 = 3 /\ tree_depth tree9_null = 3
  /\ (exists root child,
        tree_root tree9 = Ptr root
        /\ root_to_end root [root; child]
        /\ node_children child = Some []
        /\ vl_ikm_get_K (node_filter child) = 0)
  /\ (exists root child,
        tree_root tree9_null = Ptr root
        /\ root_to_leaf root [root; child]
        /\ vl_ikm_get_K (node_filter child) = 0).
Proof.
  split_and!; [reflexivity|reflexivity| |].
  - eexists _, _. split; [vm_compute; reflexivity|]. split_and!.
    + eapply rte_step;
        [reflexivity|apply list_elem_of_further, list_elem_of_here|].
      apply rte_end. intros array child [= <-]. apply not_elem_of_nil.
    + reflexivity.
    + reflexivity.
  - eexists _, _. split; [vm_compute; reflexivity|]. split.
    + eapply rtl_step;
        [reflexivity|apply list_elem_of_further, list_elem_of_here|].
      by apply rtl_leaf.
    + reflexivity.
Qed.

Lemma branching_witness :
  vl_ikm_get_K (node_filter (xmeans config9 data9 9 3 3 tt).1) = 3.
Proof.
  destruct (branching_invariant config9 data9 9 3 3 tt) as (H & _); [lia|exact H].
Defined.

Lemma builder_witness :
  xmeans config9 data9 9 3 3 tt =
    (let '(filter, ids, r1) := train_filter config9 data9 9 3 tt in
     let '(children, r2) :=
       attach_children
         (fun subset N_k K_k r => xmeans config9 subset N_k K_k (3 - 1) r)
         (tree_M config9) data9 ids 9 3 (seqZ 0 3) r1 in
     (mkNode filter ((fun _ => children) <$> vl_malloc_cells (A := VlHIKMNode filt) 3), r2))
  /\ vl_hikm_train config9 data9 9 tt =
     (let '(root, r') :=
        xmeans config9 data9 9 (Z.min (tree_K config9) 9) (tree_depth config9) tt in
      (set_root config9 (Ptr root), r')).
Proof.
  destruct (builder_recursion config9 data9 9 3 3 tt) as (H1 & _ & H3);
    [lia|lia|simpl; lia|reflexivity|].
  split; [exact H1|exact H3].
Defined.

Lemma push_deterministic_witness :
  exists root path,
    tree_root tree9 = Ptr root
    /\ hikm_path root (point [1; 23] 1 1) = Some path
    /\ Z.of_nat (length path) <= 3
    /\ (vl_malloc0_null = false -> Z.of_nat (length path) = 3)
    /\ forall d, (d < length path)%nat ->
         [0; 0; 0; 2; 0; 0] !! (1 * 3 + d)%nat = path !! d
         /\ [2; 0; 0] !! (0 * 3 + d)%nat = path !! d.
Proof.
  apply (push_deterministic config9 data9 9 tt
           (replicate 6 0) [1; 23] 2 tree9 [0; 0; 0; 2; 0; 0]
           (replicate 3 5) [23] 1 tree9 [2; 0; 0] 1 0);
    [by vm_compute|lia|lia|reflexivity|reflexivity
    |vm_compute; reflexivity|vm_compute; reflexivity
    |simpl; lia|simpl; lia|reflexivity].
Defined.

Lemma delete_order_witness :
  vl_hikm_delete (Ptr tree2)
  = Some (free_trace_ptr (tree_root tree2) ++ [EvFreeTree tree2]).
Proof.
  apply (delete_order tree2). apply train_wf; simpl; lia.
Defined.

Lemma init_witness :
  exists f',
    vl_hikm_init tree2 4 5 6 = Some (free_trace_ptr (tree_root tree2), f')
    /\ tree_M f' = 4 /\ tree_K f' = 5 /\ tree_depth f' = 6 /\ tree_root f' = Null.
Proof.
  destruct (init_configures tree2 4 5 6) as (f' & H1 & H2 & H3 & H4 & H5 & _).
  - apply train_wf; simpl; lia.
  - exists f'. repeat split; assumption.
Defined.

(** C4.  The claim fails on [tree9], of depth 3, for the datum 7, which
    is nearest to the center of the root that attracted no training
    point.  The child of that label was built for no center with one
    level to go.  Where [vl_malloc (0)] returns a block, the walk reads
    the cell [(vl_uint) -1] of its children array, which has no cell:
    the behaviour is undefined.  Where it returns the null pointer, the
    walk stops at that child: two labels are recorded instead of three,
    and the third cell of the datum keeps what it held. *)
Theorem push_walk_cut_short :
  tree_depth tree9 = 3
  /\ (exists root,
        tree_root tree9 = Ptr root
        /\ hikm_path root (point [7] 1 0) = None)
  /\ vl_hikm_push tree9 [8; 8; 8] [7] 1 = None
  /\ (exists root,
        tree_root tree9_null = Ptr root
        /\ hikm_path root (point [7] 1 0) = Some [1; 4294967295])
  /\ vl_hikm_push tree9_null [8; 8; 8] [7] 1
     = Some (tree9_null, [1; 4294967295; 8]).
Proof.
  split_and!; [reflexivity| |vm_compute; reflexivity| |vm_compute; reflexivity].
  - eexists. split; vm_compute; reflexivity.
  - eexists. split; vm_compute; reflexivity.
Qed.

(** C8 as stated fails: the children array of the root is released before
    the clustering model of the root, not after it. *)
Lemma delete_order_counterexample :
  exists root,
    tree_root tree2 = Ptr root
    /\ vl_hikm_delete (Ptr tree2) <> Some (destroy_order root ++ [EvFreeTree tree2]).
Proof.
  eexists. split; [vm_compute; reflexivity|].
  vm_compute. intros H. discriminate H.
Qed.

(** C10.  The claim fails in [tree9] where [vl_malloc (0)] returns a
    block: the second child of the root is not a leaf, its children
    array has as many cells as its filter has centers, none, and the
    label that this filter returns, [(vl_uint) -1], is not the index of a
    cell: the access [node->children [best]] of [vl_hikm_push] is outside
    the array.  (Where [vl_malloc (0)] returns the null pointer the same
    node is a leaf.) *)
Theorem children_access_outside :
  (exists node array x best,
     subnode node (xmeans config9 data9 9 3 3 tt).1
     /\ node_children node = Some array
     /\ Z.of_nat (length array) = vl_ikm_get_K (node_filter node)
     /\ head (vl_ikm_push (node_filter node) x 1).2 = Some best
     /\ ~ (0 <= best < Z.of_nat (length array))
     /\ push_node x 0 node 1 [8; 8; 8] = None)
  /\ (exists node,
        subnode node (xmeans (host := null_host) config9 data9 9 3 3 tt).1
        /\ vl_ikm_get_K (node_filter node) = 0
        /\ node_children node = None).
Proof.
  split.
  - exists (mkNode (mkFilt 0 8 (-1) 1 []) (Some [])), [], [7], 4294967295.
    split_and!; [|reflexivity..|simpl; lia|reflexivity].
    eapply subnode_below; [vm_compute; reflexivity| |apply subnode_here].
    apply list_elem_of_further, list_elem_of_here.
  - exists (mkNode (mkFilt 0 8 (-1) 1 []) None). split_and!; [|reflexivity..].
    eapply subnode_below; [vm_compute; reflexivity| |apply subnode_here].
    apply list_elem_of_further, list_elem_of_here.
Qed.
End ExampleFacts.

(** * Further properties *)

(** ** The subset partitioner: bounds and sizes *)

Lemma copy_matching_length data ids N M id buf :
  length (copy_matching data ids N M id buf).1 = length buf.
Proof.
  unfold copy_matching, for_range.
  apply (for_loop_invariant
           (fun _ (s : list vl_ikm_data * Z) => length s.1 = length buf)); [done|].
  intros k [buf' c] _ Hlen. simpl in Hlen.
  destruct (_ =? id); [|done]. simpl. unfold memcpy. by rewrite length_inserts.
Qed.

(** X1.  On [N] points of dimension [M] whose [N * M] cells are at most
    [INT_MAX], with at least [N] labels, the run of [vl_hikm_copy_subset]
    with the arithmetic of [int] and [size_t] is defined: no [int]
    expression overflows, every label is read within [ids], and every copy
    reads within the data and writes within the buffer.  It returns what
    the function computed in [Z] returns; the count left in [*N2] lies
    between 0 and [N], and the buffer has exactly [M * count] cells. *)
Theorem copy_subset_in_bounds data ids N M id :
  0 <= N <= INT_MAX -> 0 <= M <= INT_MAX -> N * M <= INT_MAX ->
  (Z.to_nat N <= length ids)%nat -> (Z.to_nat (N * M) <= length data)%nat ->
  exists buf count,
    vl_hikm_copy_subset_int data ids N M id = Some (buf, count)
    /\ vl_hikm_copy_subset data ids N M id = (buf, count)
    /\ 0 <= count <= N
    /\ length buf = Z.to_nat (M * count).
Proof.
  intros HN HM HNM Hids Hdata.
  exists (vl_hikm_copy_subset data ids N M id).1, (vl_hikm_copy_subset data ids N M id).2.
  split; [|split; [|split]].
  - rewrite copy_subset_int_pure by done. by destruct (vl_hikm_copy_subset _ _ _ _ _).
  - by destruct (vl_hikm_copy_subset _ _ _ _ _).
  - rewrite copy_subset_count.
    pose proof (selected_length_le ids id (Z.to_nat N)). lia.
  - rewrite copy_subset_count. unfold vl_hikm_copy_subset, for_range.
    by rewrite copy_matching_length, length_replicate, count_loop.
Qed.




(** ** The builder: branching factors, empty clusters, depth below 1 *)

Lemma for_loop_ext {St} (n : nat) (i : Z) (body1 body2 : Z -> St -> St) (s : St) :
  (forall k s', body1 k s' = body2 k s') ->
  for_loop n i body1 s = for_loop n i body2 s.
Proof.
  intros Hext. revert i s. induction n as [|n IH]; intros i s; [done|].
  simpl. by rewrite Hext, IH.
Qed.

Section builder_extra.
Context {VlIKMFilt VlRand : Type} {E : IKM VlIKMFilt VlRand} {host : VlHost}.
Local Abbreviation VlHIKMNode := (VlHIKMNode VlIKMFilt).
Local Abbreviation VlHIKMTree := (VlHIKMTree VlIKMFilt).
Local Abbreviation free_event := (free_event VlIKMFilt).

Lemma xmeans_rec_root bound (f : VlHIKMTree) p data N K height (r : VlRand) :
  xmeans_rec bound (set_root f p) data N K height r
  = xmeans_rec bound f data N K height r.
Proof.
  revert data N K height r. induction bound as [|bound IH]; intros data N K height r.
  - done.
  - simpl. change (train_filter (set_root f p) data N K r)
      with (train_filter f data N K r).
    destruct (train_filter f data N K r) as [[filter ids] r1].
    destruct (height =? 1); [done|].
    destruct (vl_malloc_cells K) as [array|]; [|done].
    destruct (1 <? height); [|done].
    unfold xmeans_children, for_range. simpl.
    erewrite for_loop_ext; [reflexivity|].
    intros k [children r2].
    destruct (vl_hikm_copy_subset data ids N (tree_M f) k) as [partition partition_N].
    by rewrite IH.
Qed.

(** X3.  [vl_hikm_train] does not look at the root that the tree already
    has, and does not release it: training a tree that is already trained
    gives the same result as training the tree with any other root (or
    none) in its place, the previous subtree being dropped. *)
Theorem train_ignores_old_root (f : VlHIKMTree) p data N (r : VlRand) :
  vl_hikm_train (set_root f p) data N r = vl_hikm_train f data N r.
Proof.
  unfold vl_hikm_train, xmeans. simpl. rewrite xmeans_rec_root.
  by destruct (xmeans_rec _ f data N _ _ r).
Qed.

Lemma subnode_inv (n' : VlHIKMNode) filter children :
  subnode n' (mkNode filter children) ->
  n' = mkNode filter children
  \/ exists array child, children = Some array /\ Ptr child ∈ array /\ subnode n' child.
Proof.
  inversion 1 as [|n array child Harr Hin Hsub]; subst; [by left|].
  right. simpl in Harr. by exists array, child.
Qed.

(** X4.  A child that [xmeans] builds for a label that no point carries is
    built on no point and for no center; whatever the levels left, it has
    no child cell: its children pointer is null or its array is empty. *)
Theorem empty_cluster_child (tree : VlHIKMTree) data N K height (r : VlRand) k :
  1 < height -> 0 <= k < K ->
  let ids := (train_filter tree data N K r).1.2 in
  selected ids k (Z.to_nat N) = [] ->
  exists array child r',
    node_children (xmeans tree data N K height r).1 = Some array
    /\ array !! Z.to_nat k = Some (Ptr child)
    /\ child = (xmeans tree [] 0 0 (height - 1) r').1
    /\ (node_children child = None \/ node_children child = Some []).
Proof.
  intros Hh Hk ids Hempty. unfold ids in *.
  rewrite xmeans_block_form by (done || right; lia).
  destruct (train_filter tree data N K r) as [[filter ids'] r1]. simpl in *.
  set (build := fun subset N_k K_k r => _).
  destruct (build_children_lookup build (tree_M tree) data ids' N K (seqZ 0 K) r1
              (Z.to_nat k) k) as [r' Hr']; [apply lookup_seqZ; lia|].
  destruct (build_children build (tree_M tree) data ids' N K (seqZ 0 K) r1)
    as [cs r2].
  assert (Hsub : vl_hikm_copy_subset data ids' N (tree_M tree) k = ([], 0)).
  { pose proof (copy_subset_count data ids' N (tree_M tree) k) as Hc.
    pose proof (copy_matching_length data ids' N (tree_M tree) k) as Hl.
    unfold vl_hikm_copy_subset in *. unfold for_range in Hc, Hl |- *.
    rewrite count_loop, Hempty in *. simpl in *.
    rewrite Z.mul_0_r in *. simpl in *.
    destruct (copy_matching data ids' N (tree_M tree) k []) as [buf c] eqn:Hcm.
    specialize (Hl []). rewrite Hcm in Hl. simpl in *. subst c.
    by destruct buf. }
  rewrite Hsub in Hr'. simpl in Hr'. rewrite Z.min_r in Hr' by lia.
  exists cs, (build [] 0 0 r').1, r'. split_and!; [done|done|done|].
  unfold build. rewrite xmeans_unfold.
  destruct (train_filter tree [] 0 0 r') as [[filter0 ids0] r0].
  unfold vl_malloc_cells.
  destruct vl_malloc0_null, (1 <? height - 1), (height - 1 =? 1); simpl; auto.
Qed.

Context {C : IKMContract E}.



Lemma xmeans_K_bound (tree : VlHIKMTree) data N K height (r : VlRand) :
  0 <= K -> 1 <= height ->
  forall node, subnode node (xmeans tree data N K height r).1 ->
    0 <= vl_ikm_get_K (node_filter node) <= K.
Proof.
  intros HK Hh. remember (Z.to_nat (height - 1)) as h eqn:Hheq.
  revert data N K height r HK Hh Hheq.
  induction h as [|h IH]; intros data N K height r HK Hh Hheq node Hsub.
  - assert (height = 1) as -> by lia.
    pose proof (xmeans_K tree data N K 1 r HK) as HfK.
    rewrite xmeans_leaf in Hsub, HfK.
    destruct (train_filter tree data N K r) as [[filter ids] r1]. simpl in *.
    apply subnode_inv in Hsub as [->|(? & ? & [=] & _)]. simpl. lia.
  - pose proof (xmeans_K tree data N K height r HK) as HfK.
    rewrite xmeans_spec_form in Hsub, HfK by lia.
    destruct (train_filter tree data N K r) as [[filter ids] r1].
    set (build := fun subset N_k K_k r => _) in *.
    pose proof (build_children_all
                  (fun c => forall n', subnode n' c ->
                              0 <= vl_ikm_get_K (node_filter n') <= K)
                  build (tree_M tree) data ids N K (seqZ 0 K) r1) as Hall.
    destruct (build_children build (tree_M tree) data ids N K (seqZ 0 K) r1)
      as [cs r2].
    simpl in *.
    apply subnode_inv in Hsub as [->|(array & child & Harr & Hin & Hsub)];
      [simpl; lia|].
    destruct (vl_malloc_cells K); [|done]. injection Harr as <-.
    assert (Hbuild : forall subset N_k (r' : VlRand), 0 <= N_k ->
              forall n', subnode n' (build subset N_k (Z.min K N_k) r').1 ->
                0 <= vl_ikm_get_K (node_filter n') <= K).
    { intros subset N_k r' HN_k n' Hn'.
      assert (0 <= vl_ikm_get_K (node_filter n') <= Z.min K N_k); [|lia].
      apply (IH subset N_k (Z.min K N_k) (height - 1) r'); [lia..|done]. }
    specialize (Hall Hbuild). rewrite Forall_forall in Hall.
    destruct (Hall _ Hin) as (c & [= <-] & Hc). by apply Hc.
Qed.

(** X6.  The branching factor never grows down a trained tree: the filter
    of every node has between 0 and [min (K, N)] centers, [K] being the
    configured branching factor and [N] the number of training points. *)
Theorem branching_bounded (f : VlHIKMTree) data N (r : VlRand) :
  0 <= tree_K f -> 0 <= N -> 1 <= tree_depth f ->
  exists root,
    tree_root (vl_hikm_train f data N r).1 = Ptr root
    /\ forall node, subnode node root ->
         0 <= vl_ikm_get_K (node_filter node) <= Z.min (tree_K f) N.
Proof.
  intros HK HN HD. unfold vl_hikm_train.
  pose proof (xmeans_K_bound f data N (VL_MIN (tree_K f) N) (tree_depth f) r) as Hb.
  destruct (xmeans f data N (VL_MIN (tree_K f) N) (tree_depth f) r) as [root r'].
  exists root. split; [done|]. rewrite VL_MIN_min in Hb. apply Hb; lia.
Qed.

(** X7.  Training with a depth below 1 and at least one center allocates
    the children array of the root and never writes it; [vl_hikm_delete]
    and [vl_hikm_init] then read indeterminate pointers: their behaviour
    is undefined. *)
Theorem train_depth_below_one (f : VlHIKMTree) data N (r : VlRand) M' K' depth' :
  tree_depth f < 1 -> 0 < tree_K f -> 0 < N ->
  let t := (vl_hikm_train f data N r).1 in
  (exists root,
     tree_root t = Ptr root
     /\ node_children root
        = Some (replicate (Z.to_nat (Z.min (tree_K f) N)) Indet))
  /\ vl_hikm_delete (Ptr t) = None
  /\ vl_hikm_init t M' K' depth' = None.
Proof.
  intros HD HK HN t. subst t. unfold vl_hikm_train, vl_hikm_delete, vl_hikm_init.
  pose proof (xmeans_K f data N (VL_MIN (tree_K f) N) (tree_depth f) r) as HfK.
  rewrite xmeans_unfold in *. rewrite VL_MIN_min in *.
  destruct (train_filter f data N _ r) as [[filter ids] r1].
  destruct (Z.ltb_spec 1 (tree_depth f)); [lia|].
  destruct (Z.eqb_spec (tree_depth f) 1); [lia|].
  rewrite vl_malloc_cells_block in * by (right; lia). simpl in *.
  rewrite HfK by lia.
  assert (Hnone : each_slot
            (fun child : ptr VlHIKMNode =>
               match child with
               | Indet => None
               | Null => Some []
               | Ptr c => xdelete c
               end)
            (replicate (Z.to_nat (Z.min (tree_K f) N)) Indet)
            (Z.to_nat (Z.min (tree_K f) N)) = None).
  { destruct (Z.to_nat (Z.min (tree_K f) N)) as [|cells] eqn:Hcells; [lia|done]. }
  rewrite Hnone. split_and!; [by eexists|done|done].
Qed.
End builder_extra.

(** ** Releases: every node once *)

Lemma count_if_app {A} (p : A -> bool) (l1 l2 : list A) :
  count_if p (l1 ++ l2) = (count_if p l1 + count_if p l2)%nat.
Proof. induction l1 as [|x l1 IH]; simpl; [done|]. rewrite IH. lia. Qed.

Lemma count_if_concat_map {A B} (p : B -> bool) (g : A -> list B) (h : A -> nat)
    (l : list A) :
  Forall (fun x => count_if p (g x) = h x) l ->
  count_if p (concat (map g l)) = sum_list (map h l).
Proof.
  induction 1 as [|x l Hx _ IH]; [done|]. simpl. by rewrite count_if_app, Hx, IH.
Qed.

Section release_counts.
Context {VlIKMFilt VlRand : Type} {E : IKM VlIKMFilt VlRand} {host : VlHost}.
Local Abbreviation VlHIKMNode := (VlHIKMNode VlIKMFilt).
Local Abbreviation VlHIKMTree := (VlHIKMTree VlIKMFilt).
Local Abbreviation free_event := (free_event VlIKMFilt).

Lemma free_trace_counts (node : VlHIKMNode) :
  count_if is_free_node (free_trace node) = node_count node
  /\ count_if is_ikm_delete (free_trace node) = node_count node
  /\ count_if is_free_children (free_trace node) = inner_count node
  /\ count_if is_free_tree (free_trace node) = O.
Proof.
  induction node as [filter|filter array IH] using node_induction; [done|].
  simpl. rewrite !count_if_app. simpl.
  rewrite (count_if_concat_map is_free_node _
             (fun p => match p with Ptr c => node_count c | _ => O end)),
          (count_if_concat_map is_ikm_delete _
             (fun p => match p with Ptr c => node_count c | _ => O end)),
          (count_if_concat_map is_free_children _
             (fun p => match p with Ptr c => inner_count c | _ => O end)),
          (count_if_concat_map is_free_tree _ (fun _ => O)).
  - split_and!; try lia.
    assert (sum_list (map (fun _ : ptr VlHIKMNode => O) array) = O) as ->; [|done].
    clear IH. induction array as [|p array IHa]; simpl; [done|]. exact IHa.
  - eapply Forall_impl; [exact IH|]. intros [| |c]; simpl; [done|done|]. tauto.
  - eapply Forall_impl; [exact IH|]. intros [| |c]; simpl; [done|done|]. tauto.
  - eapply Forall_impl; [exact IH|]. intros [| |c]; simpl; [done|done|]. tauto.
  - eapply Forall_impl; [exact IH|]. intros [| |c]; simpl; [done|done|]. tauto.
Qed.

(** X8.  On a tree without root or with a well-formed subtree,
    [vl_hikm_delete] is defined and releases every node of the tree
    exactly once, the filter of every node exactly once, the children
    array of every inner node exactly once, and the tree record once, as
    the last release. *)
Theorem delete_releases_once (t : VlHIKMTree) :
  tree_wf t ->
  let nodes := match tree_root t with Ptr root => node_count root | _ => O end in
  let inner := match tree_root t with Ptr root => inner_count root | _ => O end in
  exists trace,
    vl_hikm_delete (Ptr t) = Some trace
    /\ count_if is_free_node trace = nodes
    /\ count_if is_ikm_delete trace = nodes
    /\ count_if is_free_children trace = inner
    /\ count_if is_free_tree trace = 1%nat
    /\ last trace = Some (EvFreeTree t).
Proof.
  intros Hwf nodes inner. unfold vl_hikm_delete.
  rewrite xdelete_ptr_free_trace by done. simpl. eexists. split; [reflexivity|].
  rewrite !count_if_app, last_snoc. subst nodes inner.
  destruct (tree_root t) as [| |root]; simpl; [done|done|].
  destruct (free_trace_counts root) as (-> & -> & -> & ->). split_and!; (done || lia).
Qed.
End release_counts.

(** ** Assignment: trees without root, frame, label ranges, shallow trees *)

Section push_extra.
Context {VlIKMFilt VlRand : Type} {E : IKM VlIKMFilt VlRand} {host : VlHost}.
Local Abbreviation VlHIKMNode := (VlHIKMNode VlIKMFilt).
Local Abbreviation VlHIKMTree := (VlHIKMTree VlIKMFilt).
Local Abbreviation free_event := (free_event VlIKMFilt).

(** X9.  On a tree that has no root (new, or configured and not yet
    trained), and on any tree when [N <= 0], [vl_hikm_push] writes
    nothing: the assignment array and the tree are returned as they
    were. *)
Theorem push_writes_nothing (f : VlHIKMTree) asgn data N :
  tree_root f = Null \/ N <= 0 -> vl_hikm_push f asgn data N = Some (f, asgn).
Proof.
  intros [Hroot|HN]; unfold vl_hikm_push, for_range.
  - apply (for_loop_invariant (fun _ s => s = Some (f, asgn))); [done|].
    intros k s _ ->. simpl. by rewrite Hroot.
  - by replace (Z.to_nat N) with O by lia.
Qed.

Context {C : IKMContract E}.

(** X10.  A defined call of [vl_hikm_push] on a tree trained with depth
    D >= 1 writes the cells 0 to N*D - 1 of the assignment array only: the
    array keeps its length and the cells from N*D on keep their content. *)
Theorem push_frame (f0 : VlHIKMTree) data0 N0 (r0 : VlRand) asgn data N f' out :
  let f := (vl_hikm_train f0 data0 N0 r0).1 in
  let D := tree_depth f0 in
  1 <= D -> 0 <= N ->
  (Z.to_nat (N * D) <= length asgn)%nat ->
  vl_hikm_push f asgn data N = Some (f', out) ->
  length out = length asgn
  /\ forall j, (Z.to_nat (N * D) <= j)%nat -> out !! j = asgn !! j.
Proof.
  intros f D HD HN Hasgn Hpush.
  destruct (train_root f0 data0 N0 r0) as (Hroot & Hdepth & HM).
  fold f in Hroot, Hdepth, HM. set (root := (xmeans _ _ _ _ _ _).1) in Hroot.
  fold D in Hdepth.
  assert (Hin : within (Z.to_nat (D - 1)) root) by (by apply xmeans_within).
  rewrite (push_walks f root) in Hpush by done. rewrite Hdepth in Hpush.
  destruct (decide _) as [Hall|] in Hpush; [|done]. injection Hpush as <- <-.
  assert (Hbound : forall k,
    (length (default [] (hikm_path root (point data (tree_M f) k))) <= Z.to_nat D)%nat).
  { intros k.
    destruct (hikm_path root (point data (tree_M f) k)) as [p|] eqn:Hp; simpl; [|lia].
    pose proof (within_path_length _ _ _ _ Hin Hp). lia. }
  destruct (writes_lookup
              (fun k => default [] (hikm_path root (point data (tree_M f) k)))
              D asgn (Z.to_nat N)) as (Hlen & _ & Hout); [lia|by intros|].
  cbv beta in Hlen, Hout. split; [done|].
  intros j Hj. apply Hout. intros i Hi. specialize (Hbound i).
  rewrite Z2Nat.inj_mul in Hj by lia. nia.
Qed.







End push_extra.

(** ** The life cycle *)

Section whole_life.
Context {VlIKMFilt VlRand : Type} {E : IKM VlIKMFilt VlRand} {host : VlHost} {C : IKMContract E}.
Local Abbreviation VlHIKMNode := (VlHIKMNode VlIKMFilt).
Local Abbreviation VlHIKMTree := (VlHIKMTree VlIKMFilt).
Local Abbreviation free_event := (free_event VlIKMFilt).

(** X13.  The calls [vl_hikm_new], [vl_hikm_init], [vl_hikm_train],
    [vl_hikm_delete] in this order are all defined when [K >= 0],
    [depth >= 1] and [N >= 0].  Initialising the new tree releases
    nothing; training changes the root only, so the trained tree has the
    given [M], [K], [depth] and [method], 200 as limit of iterations and
    verbosity 0; deleting it ends with the release of the tree record. *)
Theorem life_cycle method M K depth data N (r : VlRand) :
  0 <= K -> 1 <= depth -> 0 <= N ->
  exists (f1 : VlHIKMTree) root trace,
    vl_hikm_init (vl_hikm_new method) M K depth = Some ([], f1)
    /\ (vl_hikm_train f1 data N r).1
       = mkTree M K 200 method 0 depth (Ptr root)
    /\ vl_hikm_delete (Ptr (vl_hikm_train f1 data N r).1) = Some trace
    /\ last trace = Some (EvFreeTree (vl_hikm_train f1 data N r).1).
Proof.
  intros HK HD HN. set (f1 := mkTree M K 200 method 0 depth Null : VlHIKMTree).
  exists f1, (xmeans f1 data N (VL_MIN K N) depth r).1. eexists.
  split; [reflexivity|]. split.
  - unfold vl_hikm_train. simpl. by destruct (xmeans _ _ _ _ _ _).
  - unfold vl_hikm_delete. rewrite xdelete_ptr_free_trace by (by apply train_wf).
    simpl. split; [reflexivity|]. by rewrite last_snoc.
Qed.
End whole_life.

(** ** The additional properties on the examples *)

Module ExtraFacts.
Import Hosts Lloyd LloydFacts Examples ExtraExamples.

Lemma copy_subset_in_bounds_witness :
  exists buf count,
    vl_hikm_copy_subset_int [10; 11; 20; 21; 30; 31] [0; 1; 0] 3 2 0 = Some (buf, count)
    /\ vl_hikm_copy_subset [10; 11; 20; 21; 30; 31] [0; 1; 0] 3 2 0 = (buf, count)
    /\ 0 <= count <= 3
    /\ length buf = Z.to_nat (2 * count).
Proof.
  apply (copy_subset_in_bounds [10; 11; 20; 21; 30; 31] [0; 1; 0] 3 2 0);
    [by vm_compute|by vm_compute|by vm_compute|simpl; lia|simpl; lia].
Defined.


Lemma empty_cluster_child_witness :
  let ids := (train_filter config9 data9 9 3 tt).1.2 in
  selected ids 1 (Z.to_nat 9) = []
  /\ exists array child r',
       node_children (xmeans config9 data9 9 3 3 tt).1 = Some array
       /\ array !! Z.to_nat 1 = Some (Ptr child)
       /\ child = (xmeans config9 [] 0 0 (3 - 1) r').1
       /\ (node_children child = None \/ node_children child = Some []).
Proof.
  intros ids. split; [by vm_compute|].
  apply (empty_cluster_child config9 data9 9 3 3 tt 1); [lia|lia|by vm_compute].
Defined.


Lemma branching_bounded_witness :
  exists root,
    tree_root (vl_hikm_train config9 data9 9 tt).1 = Ptr root
    /\ forall node, subnode node root ->
         0 <= vl_ikm_get_K (node_filter node) <= Z.min (tree_K config9) 9.
Proof. apply (branching_bounded config9 data9 9 tt); simpl; lia. Defined.

Lemma train_depth_below_one_witness :
  let t := (vl_hikm_train config0 [5; 6] 2 tt).1 in
  (exists root,
     tree_root t = Ptr root
     /\ node_children root
        = Some (replicate (Z.to_nat (Z.min (tree_K config0) 2)) Indet))
  /\ vl_hikm_delete (Ptr t) = None
  /\ vl_hikm_init t 1 1 1 = None.
Proof. apply (train_depth_below_one config0 [5; 6] 2 tt 1 1 1); simpl; lia. Defined.

Lemma delete_releases_once_witness :
  let nodes := match tree_root tree2 with Ptr root => node_count root | _ => O end in
  let inner := match tree_root tree2 with Ptr root => inner_count root | _ => O end in
  exists trace,
    vl_hikm_delete (Ptr tree2) = Some trace
    /\ count_if is_free_node trace = nodes
    /\ count_if is_ikm_delete trace = nodes
    /\ count_if is_free_children trace = inner
    /\ count_if is_free_tree trace = 1%nat
    /\ last trace = Some (EvFreeTree tree2).
Proof. apply (delete_releases_once tree2). apply train_wf; simpl; lia. Defined.

Lemma push_writes_nothing_witness :
  vl_hikm_push config9 [1; 2; 3] [4; 5] 2 = Some (config9, [1; 2; 3]).
Proof. apply (push_writes_nothing config9 [1; 2; 3] [4; 5] 2). left. reflexivity. Defined.

Lemma push_frame_witness :
  vl_hikm_push tree9 [7; 7; 7; 7; 7; 7; 7; 7] [1; 23] 2
  = Some (tree9, [0; 0; 0; 2; 0; 0; 7; 7])
  /\ length [0; 0; 0; 2; 0; 0; 7; 7] = length [7; 7; 7; 7; 7; 7; 7; 7]
  /\ forall j, (Z.to_nat (2 * tree_depth config9) <= j)%nat ->
       [0; 0; 0; 2; 0; 0; 7; 7] !! j = [7; 7; 7; 7; 7; 7; 7; 7] !! j.
Proof.
  split; [by vm_compute|].
  apply (push_frame config9 data9 9 tt [7; 7; 7; 7; 7; 7; 7; 7] [1; 23] 2 tree9);
    [simpl; lia|lia|simpl; lia|by vm_compute].
Defined.



Lemma life_cycle_witness :
  exists (f1 : VlHIKMTree filt) root trace,
    vl_hikm_init (vl_hikm_new 0) 1 3 3 = Some ([], f1)
    /\ (vl_hikm_train f1 data9 9 tt).1 = mkTree 1 3 200 0 0 3 (Ptr root)
    /\ vl_hikm_delete (Ptr (vl_hikm_train f1 data9 9 tt).1) = Some trace
    /\ last trace = Some (EvFreeTree (vl_hikm_train f1 data9 9 tt).1).
Proof. apply (life_cycle 0 1 3 3 data9 9 tt); lia. Defined.
End ExtraFacts.
